(** * Sims-Flanagan trajectory leg (kep_toolbox::sims_flanagan::leg)

    A shallow embedding of [src/keplerian_toolbox/sims_flanagan/leg.h] and the
    properties its specification states about it.

    Modelling conventions.
    - [double] is the field of real numbers: the arithmetic of the source is
      read as exact arithmetic, rounding, infinities and NaN are not modelled.
    - A [std::vector] is a list and its [size()] a [nat]; the [int] counters
      of the source agree with it for every vector of fewer than 2^31
      elements, which is the range modelled here.  An [int] used as a
      subscript is a [Z], so that a negative subscript can be written.
    - A call either returns, throws, aborts on a failed [assert], or has no
      defined behaviour (an out-of-range subscript or a write outside the
      storage an iterator points into): type [result].
    - A method that mutates something is a function from the state before the
      call to the outcome and the state at the moment the call ends. *)

From Stdlib Require Import Reals Lra ZArith Lia String.
From stdpp Require Import base list.

Open Scope R_scope.

(** ** Outcomes *)

(** [kep_toolbox::value_error], raised through the [throw_value_error] macro
    of [exceptions.h] with a message. *)
Inductive exn : Type :=
| value_error (what : string).

Inductive result (A : Type) : Type :=
| Ret (a : A)         (* normal return *)
| Throw (e : exn)     (* a C++ exception leaves the call *)
| Abort               (* a failed assert terminates the program *)
| Undefined.          (* no defined behaviour *)

Arguments Ret {A} a.
Arguments Throw {A} e.
Arguments Abort {A}.
Arguments Undefined {A}.

Definition throw_value_error {A} (s : string) : result A := Throw (value_error s).

Definition bind {A B} (m : result A) (k : A -> result B) : result B :=
  match m with
  | Ret a => k a
  | Throw e => Throw e
  | Abort => Abort
  | Undefined => Undefined
  end.

Notation "'do' x <- m ; k" := (bind m (fun x => k))
  (at level 10, x name, m at level 100, k at level 200).
Notation "'do' ' pat <- m ; k" :=
  (bind m (fun x => match x with pat => k end))
  (at level 10, pat pattern, m at level 100, k at level 200).

(** The three failures the specification names, as the source raises them. *)
Definition InvalidTimeOrder : exn :=
  value_error "Final epoch is before initial epoch".
Definition InvalidPhysicalParameter : exn :=
  value_error "Gravitational constant is less or equal to zero".
Definition BufferSizeMismatch : exn :=
  value_error "Iterators distance is incompatible with the throttles size".

(** ** Data *)

(** [double], read as a real number. *)
Abbreviation double := R.

(** [boost::array<double,3>], with its subscript. *)
Record array3D : Type := mk_array3D { a0 : double; a1 : double; a2 : double }.

Definition at3 (a : array3D) (j : nat) : double :=
  match j with
  | O => a0 a
  | S O => a1 a
  | _ => a2 a
  end.

(** Modelled from the spec: [array3D_operations.h] is not part of the sources;
    [sum] and [diff] are the component-wise sum and difference and [norm] the
    Euclidean length the specification writes |v|. *)
Definition sum (a b : array3D) : array3D :=
  mk_array3D (a0 a + a0 b) (a1 a + a1 b) (a2 a + a2 b).
Definition diff (a b : array3D) : array3D :=
  mk_array3D (a0 a - a0 b) (a1 a - a1 b) (a2 a - a2 b).
Definition norm (a : array3D) : double :=
  sqrt (a0 a * a0 a + a1 a * a1 a + a2 a * a2 a).

(** Scaling of a vector, used to state properties only. *)
Definition scale3 (k : double) (a : array3D) : array3D :=
  mk_array3D (k * a0 a) (k * a1 a) (k * a2 a).

(** Modelled from the spec: [epoch.h] is not part of the sources; an epoch is
    a real-valued day count read with [mjd2000()]. *)
Record epoch : Type := mk_epoch { mjd2000 : double }.

(** Modelled from the spec: [sc_state.h] is not part of the sources; a
    spacecraft state is a position, a velocity and a mass, and [set_state]
    fills them from seven numbers in that order. *)
Record sc_state : Type := mk_sc_state {
  get_position : array3D;
  get_velocity : array3D;
  get_mass : double
}.

(** Modelled from the spec: [throttle.h] is not part of the sources; a
    throttle is a validity window and a 3-vector, [get_norm] the length of
    that vector. *)
Record throttle : Type := mk_throttle {
  get_start : epoch;
  get_end : epoch;
  get_value : array3D
}.
Definition get_norm (t : throttle) : double := norm (get_value t).

(** Modelled from the spec: [spacecraft.h] is not part of the sources; the
    leg reads a mass, a maximum thrust and a specific impulse from it. *)
Record spacecraft : Type := mk_spacecraft {
  sc_get_mass : double;
  get_thrust : double;
  get_isp : double
}.

(** The private members of [class leg]. *)
Record leg : Type := mk_leg {
  t_i : epoch;
  x_i : sc_state;
  throttles : list throttle;
  t_f : epoch;
  x_f : sc_state;
  sc : spacecraft;
  mu : double
}.

(** [v[i]] for a [std::vector] and an [int] subscript: no check is made, and
    the access is defined only inside the vector.  A negative [int] converts
    to a [size_type] beyond the size of any vector. *)
Definition vec_at {A} (v : list A) (i : Z) : result A :=
  match i with
  | Zneg _ => Undefined
  | _ => match v !! Z.to_nat i with
         | Some x => Ret x
         | None => Undefined
         end
  end.

(** [v[i] = x]. *)
Definition vec_set {A} (v : list A) (i : Z) (x : A) : result (list A) :=
  match i with
  | Zneg _ => Undefined
  | _ => match v !! Z.to_nat i with
         | Some _ => Ret (<[Z.to_nat i := x]> v)
         | None => Undefined
         end
  end.

(** ** Setters and getters *)

Definition with_t_i (e : epoch) (l : leg) : leg :=
  mk_leg e (x_i l) (throttles l) (t_f l) (x_f l) (sc l) (mu l).
Definition with_x_i (s : sc_state) (l : leg) : leg :=
  mk_leg (t_i l) s (throttles l) (t_f l) (x_f l) (sc l) (mu l).
Definition with_throttles (ths : list throttle) (l : leg) : leg :=
  mk_leg (t_i l) (x_i l) ths (t_f l) (x_f l) (sc l) (mu l).
Definition with_t_f (e : epoch) (l : leg) : leg :=
  mk_leg (t_i l) (x_i l) (throttles l) e (x_f l) (sc l) (mu l).
Definition with_x_f (s : sc_state) (l : leg) : leg :=
  mk_leg (t_i l) (x_i l) (throttles l) (t_f l) s (sc l) (mu l).
Definition with_sc (s : spacecraft) (l : leg) : leg :=
  mk_leg (t_i l) (x_i l) (throttles l) (t_f l) (x_f l) s (mu l).
Definition with_mu (m : double) (l : leg) : leg :=
  mk_leg (t_i l) (x_i l) (throttles l) (t_f l) (x_f l) (sc l) m.

(** [set_leg]: the range [throttles_start, throttles_end) is the list [ths].
    The second component is the leg as the call leaves it. *)
Definition set_leg (epoch_i : epoch) (state_i : sc_state)
    (ths : list throttle) (epoch_f : epoch) (state_f : sc_state)
    (mu_ : double) (l : leg) : result unit * leg :=
  if Rle_dec (mjd2000 epoch_f) (mjd2000 epoch_i) then
    (throw_value_error "Final epoch is before initial epoch", l)
  else
    let l := with_t_i epoch_i l in
    let l := with_x_i state_i l in
    let l := with_t_f epoch_f l in
    let l := with_x_f state_f l in
    let l := with_throttles ths l in
    if Rle_dec mu_ 0 then
      (throw_value_error "Gravitational constant is less or equal to zero", l)
    else
      (Ret tt, with_mu mu_ l).

Definition set_spacecraft (sc_ : spacecraft) (l : leg) : leg := with_sc sc_ l.
Definition get_spacecraft (l : leg) : spacecraft := sc l.
Definition set_mu (mu_ : double) (l : leg) : leg := with_mu mu_ l.
Definition set_throttles (ths : list throttle) (l : leg) : leg :=
  with_throttles ths l.

(** [set_throttles_size]: [throttles.resize(size)] with an [int] size.
    [std::vector::resize] keeps the first [size] elements and appends
    default-constructed ones up to [size]; a negative [int] converts to a
    [size_type] above [max_size()], for which [resize] throws
    [std::length_error] and leaves the vector as it was (running out of
    memory is not modelled).  The default
    constructor of [throttle] is in [throttle.h], which is not part of the
    sources: the throttle it builds is the parameter [dflt]. *)
Inductive resize_outcome : Type :=
| Resized (l : leg)
| length_error.

Definition set_throttles_size (dflt : throttle) (size : Z) (l : leg)
    : resize_outcome :=
  match size with
  | Zneg _ => length_error
  | _ =>
      let n := Z.to_nat size in
      Resized (with_throttles
                 (take n (throttles l)
                  ++ replicate (n - length (throttles l)) dflt) l)
  end.

Definition set_throttle (index : Z) (t : throttle) (l : leg)
    : result unit * leg :=
  match vec_set (throttles l) index t with
  | Ret v => (Ret tt, with_throttles v l)
  | Throw e => (Throw e, l)
  | Abort => (Abort, l)
  | Undefined => (Undefined, l)
  end.

Definition get_throttles_size (l : leg) : nat := length (throttles l).
Definition get_throttle (index : Z) (l : leg) : result throttle :=
  vec_at (throttles l) index.

Definition get_t_i (l : leg) : epoch := t_i l.
Definition get_t_f (l : leg) : epoch := t_f l.
Definition set_t_i (e : epoch) (l : leg) : leg := with_t_i e l.
Definition set_t_f (e : epoch) (l : leg) : leg := with_t_f e l.
Definition get_x_f (l : leg) : sc_state := x_f l.
Definition get_x_i (l : leg) : sc_state := x_i l.
Definition set_x_f (s : sc_state) (l : leg) : leg := with_x_f s l.
Definition set_x_i (s : sc_state) (l : leg) : leg := with_x_i s l.

(** ** Evaluation *)

(** The state one propagation pass carries from segment to segment: the
    locals [rfwd], [vfwd], [mfwd], [current_time_fwd] of the forward pass and
    [rback], [vback], [mback], [current_time_back] of the backward one. *)
Record pass : Type := mk_pass {
  p_r : array3D;
  p_v : array3D;
  p_m : double;
  p_time : double
}.

(** [for (int i = 0; i < count; i++) body], started at counter [i]. *)
Fixpoint for_int {A} (body : nat -> A -> result A) (i count : nat) (a : A)
    : result A :=
  match count with
  | O => Ret a
  | S c => do a' <- body i a; for_int body (S i) c a'
  end.

(** Writing through an output iterator.  The storage the iterator points
    into is a list and the iterator an offset into it; a write outside the
    storage has no defined behaviour. *)
Definition and_then {S} (m : result unit * S) (k : S -> result unit * S)
    : result unit * S :=
  match m with
  | (Ret _, s) => k s
  | other => other
  end.

Definition store (out : Z) (x : double) (mem : list double)
    : result unit * list double :=
  match vec_set mem out x with
  | Ret mem' => (Ret tt, mem')
  | Throw e => (Throw e, mem)
  | Abort => (Abort, mem)
  | Undefined => (Undefined, mem)
  end.

(** [std::copy(a.begin(), a.end(), out)] for an [array3D]. *)
Definition copy3 (a : array3D) (out : Z) (mem : list double)
    : result unit * list double :=
  and_then (store out (a0 a) mem) (fun mem =>
  and_then (store (out + 1) (a1 a) mem) (fun mem =>
  store (out + 2) (a2 a) mem)).

(** [std::inner_product(t.begin(), t.end(), t.begin(), init)]. *)
Definition inner_product (t u : array3D) (init : double) : double :=
  fold_left (fun acc j => acc + at3 t j * at3 u j) (seq 0 3) init.

(** What the loop of [get_throttles_con] stores for one throttle. *)
Definition throttle_con (th : throttle) : double :=
  inner_product (get_value th) (get_value th) (-1).

(** The seven numbers [get_mismatch_con] writes, in the order of the
    writes. *)
Definition seven (r v : array3D) (dm : double) : list double :=
  [a0 r; a1 r; a2 r; a0 v; a1 v; a2 v; dm].

(** Modelled from the spec: [sc_state::set_state] takes the seven numbers of
    an [array7D] as position, velocity and mass, in that order. *)
Definition set_state (a : list double) (s : sc_state) : sc_state :=
  mk_sc_state (mk_array3D (nth 0 a 0) (nth 1 a 0) (nth 2 a 0))
              (mk_array3D (nth 3 a 0) (nth 4 a 0) (nth 5 a 0))
              (nth 6 a 0).

(** The frame of the overload [get_mismatch_con(sc_state retval)]: its
    by-value parameter and its local [tmp]. *)
Record frame : Type := mk_frame {
  retval : sc_state;
  tmp : list double
}.

(** The specification's reading of a pass: the segments of a list of
    throttles taken one after the other, in the order of the list. *)
Fixpoint run_segments {A B} (segment : B -> A -> result A) (ths : list B)
    (a : A) : result A :=
  match ths with
  | [] => Ret a
  | th :: rest => do a' <- segment th a; run_segments segment rest a'
  end.

(** Sum of a list of reals. *)
Definition sum_list (xs : list double) : double := fold_right Rplus 0 xs.

(** ** Sample data

    Concrete values on which the statements below are instantiated. *)

Definition sample_state_i : sc_state :=
  mk_sc_state (mk_array3D 1 0 0) (mk_array3D 0 1 0) 1000.
Definition sample_state_f : sc_state :=
  mk_sc_state (mk_array3D 0 1 0) (mk_array3D (-1) 0 0) 900.
Definition sample_sc : spacecraft := mk_spacecraft 1000 1 2000.

(** A throttle over the day [day, day + 1) with the given vector. *)
Definition sample_throttle (day : double) (x y z : double) : throttle :=
  mk_throttle (mk_epoch day) (mk_epoch (day + 1)) (mk_array3D x y z).

(** A leg over three days with three throttles. *)
Definition sample_leg : leg :=
  mk_leg (mk_epoch 0) sample_state_i
         [sample_throttle 0 1 0 0; sample_throttle 1 0 2 0;
          sample_throttle 2 0 0 0]
         (mk_epoch 3) sample_state_f sample_sc 1.

(** A leg without throttles. *)
Definition coast_leg : leg :=
  mk_leg (mk_epoch 0) sample_state_i [] (mk_epoch 3) sample_state_f
         sample_sc 1.

(** The values of [ASTRO_DAY2SEC] and [ASTRO_G0]. *)
Definition sample_DAY2SEC : double := 86400.
Definition sample_G0 : double := 980665 / 100000.

(** Storage of eight slots holding zeros. *)
Definition zeros8 : list double := [0; 0; 0; 0; 0; 0; 0; 0].

(** A leg without throttles whose end state is where straight-line drift
    takes the start state in three days, with the same mass. *)
Definition ballistic_leg : leg :=
  mk_leg (mk_epoch 0) sample_state_i []
         (mk_epoch 3)
         (mk_sc_state
            (sum (mk_array3D 1 0 0)
                 (scale3 (3 * sample_DAY2SEC - 0 * sample_DAY2SEC)
                         (mk_array3D 0 1 0)))
            (mk_array3D 0 1 0) 1000)
         sample_sc 1.

(** A leg with one throttle whose vector is zero. *)
Definition idle_leg : leg :=
  mk_leg (mk_epoch 0) sample_state_i [sample_throttle 1 0 0 0]
         (mk_epoch 3) sample_state_f sample_sc 1.

(** A propagator that always fails. *)
Definition no_solution (r v : array3D) (t : double) (mu_ : double)
    : result (array3D * array3D) :=
  throw_value_error "no solution".

(** A leg with one throttle of norm 1 over one day, whose spacecraft object
    has mass 250 while the start state has mass 1000. *)
Definition light_sc_leg : leg :=
  mk_leg (mk_epoch 0) sample_state_i [sample_throttle 0 1 0 0]
         (mk_epoch 1) sample_state_f (mk_spacecraft 250 1 2000) 1.

(** A stand-in for the propagator: straight-line drift. *)
Definition drift (r v : array3D) (t : double) (mu_ : double)
    : result (array3D * array3D) :=
  Ret (sum r (scale3 t v), v).

Section Evaluation.

(** Constants of [astro_constants.h] and the Kepler propagator of
    [propagate_lagrangian.h], which are not part of the sources: they are
    parameters.  The propagator receives position, velocity, elapsed time
    and mu and yields the propagated position and velocity, or fails. *)
Variable ASTRO_DAY2SEC : double.
Variable ASTRO_G0 : double.
Variable propagate_lagrangian :
  array3D -> array3D -> double -> double -> result (array3D * array3D).

(** Whether the build defines [NDEBUG], which compiles [assert] out. *)
Variable NDEBUG : bool.

(** What an uninitialised [double] happens to hold. *)
Variable indeterminate : double.

(** [thrust_duration] and [manouver_time] of a loop body, for the throttle
    it reads. *)
Definition thrust_duration (th : throttle) : double :=
  (mjd2000 (get_end th) - mjd2000 (get_start th)) * ASTRO_DAY2SEC.
Definition manouver_time (th : throttle) : double :=
  (mjd2000 (get_start th) + mjd2000 (get_end th)) / 2 * ASTRO_DAY2SEC.

(** Body of the forward loop, once [throttles[i]] is read as [th]. *)
Definition fwd_segment (l : leg) (th : throttle) (st : pass) : result pass :=
  let max_thrust := get_thrust (sc l) in
  let isp := get_isp (sc l) in
  let mfwd := p_m st in
  do '(rfwd, vfwd) <-
    propagate_lagrangian (p_r st) (p_v st)
                         (manouver_time th - p_time st) (mu l);
  let dv :=
    mk_array3D
      (max_thrust / mfwd * thrust_duration th * at3 (get_value th) 0)
      (max_thrust / mfwd * thrust_duration th * at3 (get_value th) 1)
      (max_thrust / mfwd * thrust_duration th * at3 (get_value th) 2) in
  let norm_dv := norm dv in
  Ret (mk_pass rfwd (sum vfwd dv)
               (mfwd * exp (- norm_dv / isp / ASTRO_G0))
               (manouver_time th)).

(** Body of the forward loop, for counter [i]. *)
Definition fwd_body (l : leg) (i : nat) (st : pass) : result pass :=
  do th <- vec_at (throttles l) (Z.of_nat i);
  fwd_segment l th st.

(** Body of the backward loop, once [throttles[throttles.size() - i - 1]]
    is read as [th]. *)
Definition back_segment (l : leg) (th : throttle) (st : pass)
    : result pass :=
  let max_thrust := get_thrust (sc l) in
  let isp := get_isp (sc l) in
  let mback := p_m st in
  do '(rback, vback) <-
    propagate_lagrangian (p_r st) (p_v st)
                         (manouver_time th - p_time st) (mu l);
  let dv :=
    mk_array3D
      (- max_thrust / mback * thrust_duration th * at3 (get_value th) 0)
      (- max_thrust / mback * thrust_duration th * at3 (get_value th) 1)
      (- max_thrust / mback * thrust_duration th * at3 (get_value th) 2) in
  let norm_dv := norm dv in
  Ret (mk_pass rback (sum vback dv)
               (mback * exp (norm_dv / isp / ASTRO_G0))
               (manouver_time th)).

(** Body of the backward loop, for counter [i]. *)
Definition back_body (l : leg) (i : nat) (st : pass) : result pass :=
  do th <- vec_at (throttles l)
             (Z.of_nat (length (throttles l)) - Z.of_nat i - 1);
  back_segment l th st.

Definition n_seg_fwd (l : leg) : nat := (length (throttles l) + 1) / 2.
Definition n_seg_back (l : leg) : nat := length (throttles l) / 2.

Definition fwd_init (l : leg) : pass :=
  mk_pass (get_position (x_i l)) (get_velocity (x_i l)) (get_mass (x_i l))
          (mjd2000 (t_i l) * ASTRO_DAY2SEC).
Definition back_init (l : leg) : pass :=
  mk_pass (get_position (x_f l)) (get_velocity (x_f l)) (get_mass (x_f l))
          (mjd2000 (t_f l) * ASTRO_DAY2SEC).

Definition forward_pass (l : leg) : result pass :=
  for_int (fwd_body l) 0 (n_seg_fwd l) (fwd_init l).
Definition backward_pass (l : leg) : result pass :=
  for_int (back_body l) 0 (n_seg_back l) (back_init l).

(** The part of [get_mismatch_con] between the assertion and the writes:
    both passes, the bridging propagation and the differences. *)
Definition mismatch (l : leg) : result (array3D * array3D * double) :=
  do fwd <- forward_pass l;
  do back <- backward_pass l;
  do '(rfwd, vfwd) <-
    propagate_lagrangian (p_r fwd) (p_v fwd) (p_time back - p_time fwd) (mu l);
  Ret (diff rfwd (p_r back), diff vfwd (p_v back), p_m fwd - p_m back).

(** [get_mismatch_con(begin, end)], writing into [mem]. *)
Definition get_mismatch_con (l : leg) (begin end_ : Z) (mem : list double)
    : result unit * list double :=
  if negb NDEBUG && negb (end_ - begin =? 7)%Z then (Abort, mem)
  else
    match mismatch l with
    | Ret (rfwd, vfwd, dm) =>
        and_then (copy3 rfwd begin mem) (fun mem =>
        and_then (copy3 vfwd (begin + 3) mem) (fun mem =>
        store (begin + 6) dm mem))
    | Throw e => (Throw e, mem)
    | Abort => (Abort, mem)
    | Undefined => (Undefined, mem)
    end.

(** Body of the overload [get_mismatch_con(sc_state retval)], run on its
    own frame. *)
Definition get_mismatch_con_sc_body (l : leg) (fr : frame)
    : result unit * frame :=
  match get_mismatch_con l 0 7 (tmp fr) with
  | (Ret _, tmp') => (Ret tt, mk_frame (set_state tmp' (retval fr)) tmp')
  | (other, tmp') => (other, mk_frame (retval fr) tmp')
  end.

(** A call [l.get_mismatch_con(arg)] seen from the caller, who owns the leg
    [l] and the object [arg].  The parameter is passed by value: the frame
    starts with a copy of [arg] and an uninitialised [tmp], and is gone when
    the call ends.  The method is [const].  The result is the outcome, the
    caller's two objects after the call, and the frame as it was at the end
    of the call. *)
Definition get_mismatch_con_sc (l : leg) (arg : sc_state)
    : result unit * (leg * sc_state) * frame :=
  let '(res, fr) :=
    get_mismatch_con_sc_body l (mk_frame arg (replicate 7 indeterminate)) in
  (res, (l, arg), fr).

(** [evaluate_dv]. *)
Definition evaluate_dv (l : leg) : result double :=
  for_int (fun i tmp =>
             do th <- vec_at (throttles l) (Z.of_nat i);
             Ret (tmp + (mjd2000 (get_end th) - mjd2000 (get_start th))
                        * ASTRO_DAY2SEC * get_norm th
                        * get_thrust (sc l) / sc_get_mass (sc l)))
          0 (length (throttles l)) 0.

(** The loop of [get_throttles_con]: [while (start != end)], which for a
    range of [dist = end - start >= 0] slots runs [dist] times. *)
Fixpoint throttles_con_loop (l : leg) (dist : nat) (i : Z) (start : Z)
    (mem : list double) : result unit * list double :=
  match dist with
  | O => (Ret tt, mem)
  | S d =>
      match vec_at (throttles l) i with
      | Ret th =>
          let t := get_value th in
          and_then (store start (inner_product t t (-1)) mem)
                   (throttles_con_loop l d (i + 1) (start + 1))
      | Throw e => (Throw e, mem)
      | Abort => (Abort, mem)
      | Undefined => (Undefined, mem)
      end
  end.

(** [get_throttles_con(start, end)], writing into [mem]. *)
Definition get_throttles_con (l : leg) (start end_ : Z) (mem : list double)
    : result unit * list double :=
  if negb (end_ - start =? Z.of_nat (length (throttles l)))%Z then
    (throw_value_error
       "Iterators distance is incompatible with the throttles size", mem)
  else
    throttles_con_loop l (Z.to_nat (end_ - start)) 0 start mem.

(** ** Properties of the setters *)

(** Case analysis on a subscript: zero, positive (both looked up in the
    list) or negative. *)
Ltac subscript_cases v i :=
  destruct i as [|?p|?p];
  [ destruct (v !! Z.to_nat 0) eqn:?E
  | destruct (v !! Z.to_nat (Z.pos p)) eqn:?E
  | ].

Lemma vec_at_Ret {A} (v : list A) (i : Z) (x : A) :
  vec_at v i = Ret x <-> (0 <= i)%Z /\ v !! Z.to_nat i = Some x.
Proof.
  unfold vec_at. subscript_cases v i; split; intros H;
    try discriminate; try lia;
    try (inversion H; subst; split; [lia | reflexivity]);
    destruct H as [_ H]; congruence.
Qed.

Lemma vec_at_in_range {A} (v : list A) (i : Z) :
  (exists x, vec_at v i = Ret x) <-> (0 <= i < Z.of_nat (length v))%Z.
Proof.
  split.
  - intros [x Hx]. apply vec_at_Ret in Hx as [Hi Hx].
    apply lookup_lt_Some in Hx. lia.
  - intros Hi. destruct (lookup_lt_is_Some_2 v (Z.to_nat i)) as [x Hx]; [lia|].
    exists x. apply vec_at_Ret. split; [lia | exact Hx].
Qed.

Lemma vec_at_out_of_range {A} (v : list A) (i : Z) :
  vec_at v i = Undefined <-> ~ (0 <= i < Z.of_nat (length v))%Z.
Proof.
  split.
  - intros H Hi. apply vec_at_in_range in Hi as [x Hx]. congruence.
  - intros Hi. unfold vec_at.
    subscript_cases v i; try reflexivity; apply lookup_lt_Some in E; lia.
Qed.

Lemma vec_at_of_nat {A} (v : list A) (i : nat) (x : A) :
  v !! i = Some x -> vec_at v (Z.of_nat i) = Ret x.
Proof.
  intros H. apply vec_at_Ret. rewrite Nat2Z.id. split; [lia | exact H].
Qed.

Lemma vec_set_Ret {A} (v : list A) (i : Z) (x : A) :
  (0 <= i < Z.of_nat (length v))%Z ->
  vec_set v i x = Ret (<[Z.to_nat i := x]> v).
Proof.
  intros Hi. unfold vec_set.
  destruct (lookup_lt_is_Some_2 v (Z.to_nat i)) as [y Hy]; [lia|].
  destruct i; try lia; rewrite Hy; reflexivity.
Qed.

Lemma vec_set_Undefined {A} (v : list A) (i : Z) (x : A) :
  ~ (0 <= i < Z.of_nat (length v))%Z -> vec_set v i x = Undefined.
Proof.
  intros Hi. unfold vec_set.
  subscript_cases v i; try reflexivity; apply lookup_lt_Some in E; lia.
Qed.

(** Case analysis on a comparison of two reals made by the code. *)
Ltac case_Rle :=
  match goal with
  | |- context [Rle_dec ?a ?b] => destruct (Rle_dec a b)
  end.

(** C9: [set_leg] with a final epoch not after the initial one throws the
    time-order error and leaves every member of the leg as it was. *)
Theorem set_leg_time_order epoch_i state_i ths epoch_f state_f mu_ l :
  mjd2000 epoch_f <= mjd2000 epoch_i ->
  set_leg epoch_i state_i ths epoch_f state_f mu_ l
  = (Throw InvalidTimeOrder, l).
Proof.
  intros H. unfold set_leg. case_Rle; [reflexivity | contradiction].
Qed.

(** C2, as the code has it: [set_leg] with mu <= 0 always fails, with the
    time-order error and an untouched leg when the epochs are not in order,
    with the gravitational-parameter error otherwise; whichever it is, mu
    and the spacecraft keep their values. *)
Theorem set_leg_nonpositive_mu epoch_i state_i ths epoch_f state_f mu_ l :
  mu_ <= 0 ->
  let r := set_leg epoch_i state_i ths epoch_f state_f mu_ l in
  (mjd2000 epoch_f <= mjd2000 epoch_i -> r = (Throw InvalidTimeOrder, l)) /\
  (mjd2000 epoch_i < mjd2000 epoch_f ->
     fst r = Throw InvalidPhysicalParameter) /\
  mu (snd r) = mu l /\ sc (snd r) = sc l.
Proof.
  intros Hmu r. subst r. unfold set_leg. case_Rle.
  - repeat split; try reflexivity. intros Hlt. lra.
  - case_Rle; [|contradiction].
    repeat split; try reflexivity. intros Hle. lra.
Qed.

(** C10: [get_throttle] and [set_throttle] subscript the vector without a
    check: the access is defined exactly for 0 <= index < size, where
    [set_throttle] replaces that one throttle, and it has no defined
    behaviour for any other index. *)
Theorem throttle_access_defined (l : leg) (index : Z) (t : throttle) :
  ((exists th, get_throttle index l = Ret th)
     <-> (0 <= index < Z.of_nat (get_throttles_size l))%Z) /\
  ((exists l', set_throttle index t l = (Ret tt, l'))
     <-> (0 <= index < Z.of_nat (get_throttles_size l))%Z) /\
  (get_throttle index l = Undefined
     <-> ~ (0 <= index < Z.of_nat (get_throttles_size l))%Z) /\
  (set_throttle index t l = (Undefined, l)
     <-> ~ (0 <= index < Z.of_nat (get_throttles_size l))%Z) /\
  (forall l', set_throttle index t l = (Ret tt, l') ->
     l' = with_throttles (<[Z.to_nat index := t]> (throttles l)) l /\
     get_throttle index l' = Ret t).
Proof.
  unfold get_throttle, set_throttle, get_throttles_size.
  split; [apply vec_at_in_range|].
  split.
  { split.
    - intros [l' H].
      destruct (Z_lt_dec index 0) as [Hn|Hn];
        [rewrite vec_set_Undefined in H by lia; discriminate|].
      destruct (Z_lt_dec index (Z.of_nat (length (throttles l)))) as [Hlt|Hge];
        [lia|].
      rewrite vec_set_Undefined in H by lia. discriminate.
    - intros Hi. rewrite vec_set_Ret by exact Hi. eexists. reflexivity. }
  split; [apply vec_at_out_of_range|].
  split.
  { split.
    - intros H Hi. rewrite vec_set_Ret in H by exact Hi. discriminate.
    - intros Hi. rewrite vec_set_Undefined by exact Hi. reflexivity. }
  intros l' H.
  destruct (Z_lt_dec index 0) as [Hn|Hn];
    [rewrite vec_set_Undefined in H by lia; discriminate|].
  destruct (Z_lt_dec index (Z.of_nat (length (throttles l)))) as [Hlt|Hge];
    [|rewrite vec_set_Undefined in H by lia; discriminate].
  rewrite vec_set_Ret in H by lia. inversion H; subst. split; [reflexivity|].
  simpl. apply vec_at_Ret. split; [lia|].
  apply list_lookup_insert_eq. lia.
Qed.

(** ** The two passes *)

(** A counted loop whose body reads the [i]-th element of a list runs the
    segments of the next [count] elements in their order. *)
Lemma for_int_segments {A B} (segment : B -> A -> result A)
    (body : nat -> A -> result A) (xs : list B) :
  (forall i x a, xs !! i = Some x -> body i a = segment x a) ->
  forall count i a,
    (i + count <= length xs)%nat ->
    for_int body i count a = run_segments segment (take count (drop i xs)) a.
Proof.
  intros Hbody count. induction count as [|c IH]; intros i a Hlen.
  - rewrite take_0. reflexivity.
  - destruct (lookup_lt_is_Some_2 xs i) as [x Hx]; [lia|].
    rewrite (drop_S _ _ _ Hx). simpl.
    rewrite (Hbody _ _ _ Hx).
    destruct (segment x a) as [a'| | |]; simpl; try reflexivity.
    apply IH. lia.
Qed.

Lemma fwd_body_segment l i th st :
  throttles l !! i = Some th -> fwd_body l i st = fwd_segment l th st.
Proof.
  intros H. unfold fwd_body. rewrite (vec_at_of_nat _ _ _ H). reflexivity.
Qed.

Lemma back_body_segment l i th st :
  reverse (throttles l) !! i = Some th ->
  back_body l i st = back_segment l th st.
Proof.
  intros H. apply reverse_lookup_Some in H as [H Hi].
  unfold back_body.
  replace (Z.of_nat (length (throttles l)) - Z.of_nat i - 1)%Z
    with (Z.of_nat (length (throttles l) - S i)) by lia.
  rewrite (vec_at_of_nat _ _ _ H). reflexivity.
Qed.

Lemma n_seg_sum l : (n_seg_fwd l + n_seg_back l = length (throttles l))%nat.
Proof.
  unfold n_seg_fwd, n_seg_back.
  pose proof (Nat.div_mod_eq (length (throttles l) + 1) 2) as H1.
  pose proof (Nat.div_mod_eq (length (throttles l)) 2) as H2.
  pose proof (Nat.mod_upper_bound (length (throttles l) + 1) 2) as H3.
  pose proof (Nat.mod_upper_bound (length (throttles l)) 2) as H4.
  assert (Hm : ((length (throttles l) + 1) mod 2
                = 1 - length (throttles l) mod 2)%nat).
  { rewrite <- Nat.Div0.add_mod_idemp_l.
    destruct (length (throttles l) mod 2)%nat as [|[|k]] eqn:E;
      [reflexivity | reflexivity | lia]. }
  lia.
Qed.

Lemma n_seg_fwd_back l :
  (n_seg_fwd l = n_seg_back l + length (throttles l) mod 2)%nat.
Proof.
  pose proof (n_seg_sum l) as Hs.
  unfold n_seg_fwd, n_seg_back in *.
  pose proof (Nat.div_mod_eq (length (throttles l)) 2) as H2.
  lia.
Qed.

(** C4: with n throttles the forward pass runs the segments of the first
    (n+1)/2 = ceil(n/2) throttles, in increasing order, from the start
    state; the backward pass runs those of the remaining n/2 = floor(n/2)
    throttles, the last one first, from the end state; for odd n the
    forward pass has one segment more. *)
Theorem pass_split (l : leg) :
  let n := length (throttles l) in
  forward_pass l
  = run_segments (fwd_segment l) (take ((n + 1) / 2) (throttles l))
                 (fwd_init l) /\
  backward_pass l
  = run_segments (back_segment l)
                 (reverse (drop (n - n / 2) (throttles l))) (back_init l) /\
  fwd_init l
  = mk_pass (get_position (x_i l)) (get_velocity (x_i l)) (get_mass (x_i l))
            (mjd2000 (t_i l) * ASTRO_DAY2SEC) /\
  back_init l
  = mk_pass (get_position (x_f l)) (get_velocity (x_f l)) (get_mass (x_f l))
            (mjd2000 (t_f l) * ASTRO_DAY2SEC) /\
  length (take ((n + 1) / 2) (throttles l)) = ((n + 1) / 2)%nat /\
  length (drop (n - n / 2) (throttles l)) = (n / 2)%nat /\
  take ((n + 1) / 2) (throttles l) ++ drop (n - n / 2) (throttles l)
  = throttles l /\
  (n <= 2 * ((n + 1) / 2) < n + 2)%nat /\
  (2 * (n / 2) <= n < 2 * (n / 2) + 2)%nat /\
  ((n + 1) / 2 = n / 2 + n mod 2)%nat.
Proof.
  intros n.
  pose proof (n_seg_sum l) as Hs. pose proof (n_seg_fwd_back l) as Hfb.
  unfold n_seg_fwd, n_seg_back in Hs, Hfb. fold n in Hs, Hfb.
  pose proof (Nat.mod_upper_bound n 2) as Hm.
  split.
  { unfold forward_pass, n_seg_fwd. fold n.
    rewrite (for_int_segments (fwd_segment l) (fwd_body l) (throttles l)).
    - rewrite drop_0. reflexivity.
    - intros i x a Hx. apply fwd_body_segment, Hx.
    - fold n. lia. }
  split.
  { unfold backward_pass, n_seg_back. fold n.
    rewrite (for_int_segments (back_segment l) (back_body l)
               (reverse (throttles l))).
    - rewrite drop_0, take_reverse. reflexivity.
    - intros i x a Hx. apply back_body_segment, Hx.
    - rewrite length_reverse. fold n. lia. }
  split; [reflexivity|]. split; [reflexivity|].
  split; [rewrite length_take; fold n; lia|].
  split; [rewrite length_drop; fold n; lia|].
  split.
  { replace (n - n / 2)%nat with ((n + 1) / 2)%nat by lia.
    apply take_drop. }
  lia.
Qed.

(** ** One segment *)

Lemma sum_squares_nonneg (a : array3D) :
  0 <= a0 a * a0 a + a1 a * a1 a + a2 a * a2 a.
Proof. nra. Qed.

Lemma norm_scale3 (k : double) (a : array3D) :
  norm (scale3 k a) = Rabs k * norm a.
Proof.
  unfold norm, scale3. simpl.
  replace (k * a0 a * (k * a0 a) + k * a1 a * (k * a1 a)
           + k * a2 a * (k * a2 a))
    with (Rsqr k * (a0 a * a0 a + a1 a * a1 a + a2 a * a2 a))
    by (unfold Rsqr; ring).
  rewrite sqrt_mult_alt by apply Rle_0_sqr.
  rewrite sqrt_Rsqr_abs. reflexivity.
Qed.

Lemma div_div (a b c : double) : a / b / c = a / (b * c).
Proof. unfold Rdiv. rewrite Rinv_mult. ring. Qed.

(** C5: a forward segment adds to the propagated velocity the increment
    (max_thrust / mass) * duration * throttle vector, whose length is
    (max_thrust / mass) * duration * |throttle vector| as soon as that
    factor is not negative, and multiplies the mass by
    exp(-|dv| / (Isp * g0)); a backward segment adds the negated
    increment, computed with the backward mass, and multiplies the mass
    by exp(+|dv| / (Isp * g0)). *)
Theorem segment_impulse (l : leg) (th : throttle) (st : pass)
    (r' v' : array3D) :
  propagate_lagrangian (p_r st) (p_v st) (manouver_time th - p_time st)
                       (mu l) = Ret (r', v') ->
  let k := get_thrust (sc l) / p_m st * thrust_duration th in
  let dv := scale3 k (get_value th) in
  fwd_segment l th st
  = Ret (mk_pass r' (sum v' dv)
                 (p_m st * exp (- norm dv / (get_isp (sc l) * ASTRO_G0)))
                 (manouver_time th)) /\
  back_segment l th st
  = Ret (mk_pass r' (sum v' (scale3 (-1) dv))
                 (p_m st * exp (norm dv / (get_isp (sc l) * ASTRO_G0)))
                 (manouver_time th)) /\
  norm (scale3 (-1) dv) = norm dv /\
  norm dv = Rabs k * norm (get_value th) /\
  (0 <= k -> norm dv = k * norm (get_value th)).
Proof.
  intros Hprop k dv.
  assert (Hf : mk_array3D
                 (get_thrust (sc l) / p_m st * thrust_duration th
                  * at3 (get_value th) 0)
                 (get_thrust (sc l) / p_m st * thrust_duration th
                  * at3 (get_value th) 1)
                 (get_thrust (sc l) / p_m st * thrust_duration th
                  * at3 (get_value th) 2) = dv) by reflexivity.
  assert (Hb : mk_array3D
                 (- get_thrust (sc l) / p_m st * thrust_duration th
                  * at3 (get_value th) 0)
                 (- get_thrust (sc l) / p_m st * thrust_duration th
                  * at3 (get_value th) 1)
                 (- get_thrust (sc l) / p_m st * thrust_duration th
                  * at3 (get_value th) 2) = scale3 (-1) dv).
  { unfold dv, scale3, k. simpl. f_equal; unfold Rdiv; ring. }
  assert (Hn : norm (scale3 (-1) dv) = norm dv).
  { rewrite norm_scale3, Rabs_left by lra. ring. }
  split.
  { unfold fwd_segment. rewrite Hprop. unfold bind. cbv beta iota zeta.
    rewrite Hf.
    rewrite div_div. reflexivity. }
  split.
  { unfold back_segment. rewrite Hprop. unfold bind. cbv beta iota zeta.
    rewrite Hb, Hn.
    rewrite div_div. reflexivity. }
  split; [exact Hn|].
  split; [apply norm_scale3|].
  intros Hk. unfold dv. rewrite norm_scale3, Rabs_right by lra. reflexivity.
Qed.

(** ** The delta-v estimate *)

Lemma run_segments_sum {B} (g : B -> double) (xs : list B) (a : double) :
  run_segments (fun x acc => Ret (acc + g x)) xs a
  = Ret (a + sum_list (map g xs)).
Proof.
  revert a. induction xs as [|x xs IH]; intros a; simpl.
  - f_equal. ring.
  - rewrite IH. f_equal. ring.
Qed.

(** C6, as the code has it: [evaluate_dv] returns the sum, over all
    throttles, of duration in seconds * throttle norm * (max_thrust / m),
    where m is [sc.get_mass()], the mass held by the spacecraft object of
    the leg, the same in every term; the start state, and with it the
    initial mass [x_i.get_mass()], has no part in the result. *)
Theorem evaluate_dv_sum (l : leg) :
  evaluate_dv l
  = Ret (sum_list
           (map (fun th =>
                   thrust_duration th * get_norm th
                   * (get_thrust (sc l) / sc_get_mass (sc l)))
                (throttles l))) /\
  forall s : sc_state, evaluate_dv (set_x_i s l) = evaluate_dv l.
Proof.
  split; [|reflexivity].
  unfold evaluate_dv.
  rewrite (for_int_segments
             (fun th acc =>
                Ret (acc + (mjd2000 (get_end th) - mjd2000 (get_start th))
                           * ASTRO_DAY2SEC * get_norm th
                           * get_thrust (sc l) / sc_get_mass (sc l)))
             _ (throttles l)).
  - rewrite drop_0, firstn_all, run_segments_sum. f_equal.
    rewrite Rplus_0_l. f_equal. apply map_ext. intros th.
    unfold thrust_duration, Rdiv. ring.
  - intros i x a Hx. rewrite (vec_at_of_nat _ _ _ Hx). reflexivity.
  - lia.
Qed.

(** ** The throttle constraints *)

Lemma throttle_con_squares (th : throttle) :
  throttle_con th
  = a0 (get_value th) * a0 (get_value th)
    + a1 (get_value th) * a1 (get_value th)
    + a2 (get_value th) * a2 (get_value th) - 1.
Proof. unfold throttle_con, inner_product. simpl. ring. Qed.

Lemma store_middle (pre post : list double) (old x : double) :
  store (Z.of_nat (length pre)) x (pre ++ old :: post)
  = (Ret tt, pre ++ x :: post).
Proof.
  unfold store. rewrite vec_set_Ret.
  - rewrite Nat2Z.id.
    replace (length pre) with (length pre + 0)%nat at 1 by lia.
    rewrite insert_app_r. reflexivity.
  - rewrite length_app. simpl. lia.
Qed.

Lemma throttles_con_loop_ok (l : leg) (dist : nat) :
  forall (i : nat) (pre slots post : list double),
    (i + dist <= length (throttles l))%nat ->
    length slots = dist ->
    throttles_con_loop l dist (Z.of_nat i) (Z.of_nat (length pre))
                       (pre ++ slots ++ post)
    = (Ret tt,
       pre ++ map throttle_con (take dist (drop i (throttles l))) ++ post).
Proof.
  induction dist as [|d IH]; intros i pre slots post Hi Hlen.
  - destruct slots; [|discriminate]. rewrite take_0. reflexivity.
  - destruct slots as [|old slots]; [discriminate|].
    destruct (lookup_lt_is_Some_2 (throttles l) i) as [th Hth]; [lia|].
    rewrite (drop_S _ _ _ Hth). simpl.
    rewrite (vec_at_of_nat _ _ _ Hth).
    rewrite store_middle. unfold and_then.
    replace (Z.of_nat i + 1)%Z with (Z.of_nat (S i)) by lia.
    replace (Z.of_nat (length pre) + 1)%Z
      with (Z.of_nat (length (pre ++ [inner_product (get_value th)
                                        (get_value th) (-1)])))
      by (rewrite length_app; simpl; lia).
    rewrite (cons_middle _ pre (slots ++ post)), app_assoc.
    rewrite IH by (simpl in Hlen; lia).
    rewrite <- app_assoc. reflexivity.
Qed.

(** [get_throttles_con] on a range of the right length that lies inside
    the storage: the slots of the range receive the constraint values in
    the order of the throttles, and nothing else changes. *)
Lemma get_throttles_con_ok (l : leg) (start end_ : Z) (mem : list double) :
  (end_ - start = Z.of_nat (length (throttles l)))%Z ->
  (0 <= start)%Z ->
  (end_ <= Z.of_nat (length mem))%Z ->
  get_throttles_con l start end_ mem
  = (Ret tt,
     take (Z.to_nat start) mem ++ map throttle_con (throttles l)
     ++ drop (Z.to_nat end_) mem).
Proof.
  intros Hlen Hs He. unfold get_throttles_con.
  rewrite (proj2 (Z.eqb_eq _ _) Hlen). simpl.
  rewrite Hlen, Nat2Z.id.
  set (n := length (throttles l)) in *.
  rewrite <- (take_drop (Z.to_nat start) mem) at 1.
  rewrite <- (take_drop n (drop (Z.to_nat start) mem)) at 1.
  rewrite drop_drop.
  replace start with (Z.of_nat (length (take (Z.to_nat start) mem))) at 1
    by (rewrite length_take; lia).
  rewrite (throttles_con_loop_ok l n 0).
  - rewrite drop_0. unfold n. rewrite firstn_all.
    replace (Z.to_nat start + length (throttles l))%nat
      with (Z.to_nat end_) by (fold n; lia).
    reflexivity.
  - unfold n. lia.
  - rewrite length_take, length_drop. lia.
Qed.

Lemma norm_sign (a : array3D) :
  let c := a0 a * a0 a + a1 a * a1 a + a2 a * a2 a - 1 in
  (norm a = 1 -> c = 0) /\ (1 < norm a -> 0 < c) /\ (norm a < 1 -> c < 0).
Proof.
  intros c. subst c. unfold norm.
  pose proof (sum_squares_nonneg a) as Hs.
  pose proof (sqrt_sqrt _ Hs) as Hq.
  pose proof (sqrt_pos (a0 a * a0 a + a1 a * a1 a + a2 a * a2 a)) as Hp.
  set (s := a0 a * a0 a + a1 a * a1 a + a2 a * a2 a) in *.
  repeat split; intros H; nra.
Qed.

(** C7: on a range of the right length inside the storage,
    [get_throttles_con] returns after storing, for the i-th throttle
    (x, y, z), the value x*x + y*y + z*z - 1 in the i-th slot of the range;
    that value is 0 for a throttle of norm 1, positive for a norm above 1
    and negative for a norm below 1. *)
Theorem get_throttles_con_values (l : leg) (start end_ : Z)
    (mem : list double) :
  (end_ - start = Z.of_nat (length (throttles l)))%Z ->
  (0 <= start)%Z ->
  (end_ <= Z.of_nat (length mem))%Z ->
  exists mem',
    get_throttles_con l start end_ mem = (Ret tt, mem') /\
    forall (i : nat) (th : throttle),
      throttles l !! i = Some th ->
      let c := a0 (get_value th) * a0 (get_value th)
               + a1 (get_value th) * a1 (get_value th)
               + a2 (get_value th) * a2 (get_value th) - 1 in
      mem' !! (Z.to_nat start + i)%nat = Some c /\
      (get_norm th = 1 -> c = 0) /\
      (1 < get_norm th -> 0 < c) /\
      (get_norm th < 1 -> c < 0).
Proof.
  intros Hlen Hs He. eexists. split.
  - apply get_throttles_con_ok; assumption.
  - intros i th Hth c. split; [|apply norm_sign].
    rewrite lookup_app_r by (rewrite length_take; lia).
    rewrite length_take.
    replace (Z.to_nat start + i - Z.to_nat start `min` length mem)%nat
      with i by lia.
    rewrite lookup_app_l
      by (rewrite length_map; apply lookup_lt_Some in Hth; exact Hth).
    rewrite list_lookup_fmap, Hth. simpl. f_equal.
    apply throttle_con_squares.
Qed.

(** C8: [get_throttles_con] on a range whose length is not the number of
    throttles throws the size error and leaves the storage as it was; on a
    range of that length (inside the storage) it returns and the storage
    differs exactly in the slots of the range, which hold one value per
    throttle, in the order of the throttles: x*x + y*y + z*z - 1 for the
    throttle (x, y, z). *)
Theorem get_throttles_con_length (l : leg) (start end_ : Z)
    (mem : list double) :
  ((end_ - start <> Z.of_nat (length (throttles l)))%Z ->
   get_throttles_con l start end_ mem = (Throw BufferSizeMismatch, mem)) /\
  ((end_ - start = Z.of_nat (length (throttles l)))%Z ->
   (0 <= start)%Z ->
   (end_ <= Z.of_nat (length mem))%Z ->
   let written :=
     map (fun th =>
            a0 (get_value th) * a0 (get_value th)
            + a1 (get_value th) * a1 (get_value th)
            + a2 (get_value th) * a2 (get_value th) - 1)
         (throttles l) in
   length written = length (throttles l) /\
   get_throttles_con l start end_ mem
   = (Ret tt,
      take (Z.to_nat start) mem ++ written ++ drop (Z.to_nat end_) mem)).
Proof.
  split.
  - intros Hne. unfold get_throttles_con.
    rewrite (proj2 (Z.eqb_neq _ _) Hne). reflexivity.
  - intros Hlen Hs He written. split.
    + apply length_map.
    + rewrite get_throttles_con_ok by assumption.
      do 3 f_equal. apply map_ext. intros th. apply throttle_con_squares.
Qed.

(** ** The mismatch and its output range *)

Lemma store_slot (pre slots post : list double) (k : nat) (x : double)
    (p : Z) :
  p = Z.of_nat (length pre + k) ->
  (k < length slots)%nat ->
  store p x (pre ++ slots ++ post) = (Ret tt, pre ++ <[k := x]> slots ++ post).
Proof.
  intros -> Hk. unfold store. rewrite vec_set_Ret.
  - rewrite Nat2Z.id, insert_app_r, insert_app_l by exact Hk. reflexivity.
  - rewrite !length_app. lia.
Qed.

Lemma get_mismatch_con_writes (l : leg) (begin end_ : Z)
    (mem : list double) (r v : array3D) (dm : double) :
  mismatch l = Ret (r, v, dm) ->
  NDEBUG = true \/ (end_ - begin = 7)%Z ->
  (0 <= begin)%Z ->
  (begin + 7 <= Z.of_nat (length mem))%Z ->
  get_mismatch_con l begin end_ mem
  = (Ret tt,
     take (Z.to_nat begin) mem ++ seven r v dm
     ++ drop (Z.to_nat begin + 7) mem).
Proof.
  intros Hm Hchk Hb He. unfold get_mismatch_con.
  assert (Hguard : negb NDEBUG && negb (end_ - begin =? 7)%Z = false).
  { destruct Hchk as [->| ->]; [reflexivity|].
    rewrite Z.eqb_refl. apply andb_false_r. }
  rewrite Hguard, Hm.
  rewrite <- (take_drop (Z.to_nat begin) mem) at 1.
  rewrite <- (take_drop 7 (drop (Z.to_nat begin) mem)) at 1.
  rewrite drop_drop.
  set (pre := take (Z.to_nat begin) mem).
  set (post := drop (Z.to_nat begin + 7) mem).
  assert (Hpre : length pre = Z.to_nat begin)
    by (unfold pre; rewrite length_take; lia).
  assert (Hslots : length (take 7 (drop (Z.to_nat begin) mem)) = 7%nat)
    by (rewrite length_take, length_drop; lia).
  destruct (take 7 (drop (Z.to_nat begin) mem))
    as [|s0 [|s1 [|s2 [|s3 [|s4 [|s5 [|s6 [|s7 rest]]]]]]]];
    try discriminate.
  unfold copy3, and_then.
  rewrite (store_slot pre _ post 0) by (simpl; lia). simpl insert.
  rewrite (store_slot pre _ post 1) by (simpl; lia). simpl insert.
  rewrite (store_slot pre _ post 2) by (simpl; lia). simpl insert.
  rewrite (store_slot pre _ post 3) by (simpl; lia). simpl insert.
  rewrite (store_slot pre _ post 4) by (simpl; lia). simpl insert.
  rewrite (store_slot pre _ post 5) by (simpl; lia). simpl insert.
  rewrite (store_slot pre _ post 6) by (simpl; lia). simpl insert.
  reflexivity.
Qed.

(** C1, as the code has it: a range whose length is not 7 is caught by an
    assertion only.  In a build with assertions the call aborts before
    anything is computed or written; with NDEBUG the length is not looked
    at, the call behaves as on the range [begin, begin + 7) and, when the
    mismatch is computed and the storage has seven slots from [begin] on,
    those seven slots are written. *)
Theorem get_mismatch_con_wrong_length (l : leg) (begin end_ : Z)
    (mem : list double) :
  (end_ - begin <> 7)%Z ->
  (NDEBUG = false -> get_mismatch_con l begin end_ mem = (Abort, mem)) /\
  (NDEBUG = true ->
     get_mismatch_con l begin end_ mem
     = get_mismatch_con l begin (begin + 7) mem /\
     forall r v dm,
       mismatch l = Ret (r, v, dm) ->
       (0 <= begin)%Z ->
       (begin + 7 <= Z.of_nat (length mem))%Z ->
       get_mismatch_con l begin end_ mem
       = (Ret tt,
          take (Z.to_nat begin) mem ++ seven r v dm
          ++ drop (Z.to_nat begin + 7) mem)).
Proof.
  intros Hne. split.
  - intros Hd. unfold get_mismatch_con.
    rewrite Hd, (proj2 (Z.eqb_neq _ _) Hne). reflexivity.
  - intros Hd. split.
    + unfold get_mismatch_con. rewrite Hd. reflexivity.
    + intros r v dm Hm Hb He.
      apply get_mismatch_con_writes; auto.
Qed.

(** C3: the overload taking an [sc_state] receives it by value.  Whatever
    the outcome, the caller's leg and argument are what they were; when the
    mismatch is computed the call returns, the seven numbers are in the
    local array and the mismatch state is in the callee's own copy, which
    ends with the call. *)
Theorem get_mismatch_con_by_value (l : leg) (arg : sc_state) :
  snd (fst (get_mismatch_con_sc l arg)) = (l, arg) /\
  forall r v dm,
    mismatch l = Ret (r, v, dm) ->
    get_mismatch_con_sc l arg
    = (Ret tt, (l, arg), mk_frame (mk_sc_state r v dm) (seven r v dm)).
Proof.
  split.
  - unfold get_mismatch_con_sc.
    destruct (get_mismatch_con_sc_body l _) as [res fr]. reflexivity.
  - intros r v dm Hm.
    unfold get_mismatch_con_sc, get_mismatch_con_sc_body. simpl tmp.
    rewrite (get_mismatch_con_writes l 0 7 _ r v dm Hm);
      [| right; reflexivity | lia | simpl; lia].
    simpl. destruct r, v. reflexivity.
Qed.

(** ** Further properties of the setters *)

(** X1: [set_leg] returns exactly when the final epoch is after the initial
    one and mu is positive; the leg then holds the six arguments and the
    spacecraft it had. *)
Theorem set_leg_returns epoch_i state_i ths epoch_f state_f mu_ l :
  (fst (set_leg epoch_i state_i ths epoch_f state_f mu_ l) = Ret tt
   <-> mjd2000 epoch_i < mjd2000 epoch_f /\ 0 < mu_) /\
  (mjd2000 epoch_i < mjd2000 epoch_f -> 0 < mu_ ->
   set_leg epoch_i state_i ths epoch_f state_f mu_ l
   = (Ret tt, mk_leg epoch_i state_i ths epoch_f state_f (sc l) mu_)).
Proof.
  unfold set_leg. split.
  - case_Rle; [|case_Rle]; simpl; split; intros H;
      try discriminate; try reflexivity; try lra.
  - intros He Hm. case_Rle; [lra|]. case_Rle; [lra|]. reflexivity.
Qed.

Lemma vec_at_insert_ne {A} (v : list A) (i j : Z) (x : A) :
  (0 <= i)%Z -> j <> i ->
  vec_at (<[Z.to_nat i := x]> v) j = vec_at v j.
Proof.
  intros Hi Hne. unfold vec_at. destruct j as [|p|p]; try reflexivity;
    rewrite list_lookup_insert_ne by lia; reflexivity.
Qed.

(** X2: a [set_throttle] that returns changes one throttle only: the number
    of throttles, the throttle at every other index and all other members
    of the leg are what they were. *)
Theorem set_throttle_frame (l l' : leg) (index : Z) (t : throttle) :
  set_throttle index t l = (Ret tt, l') ->
  get_throttles_size l' = get_throttles_size l /\
  (forall j, j <> index -> get_throttle j l' = get_throttle j l) /\
  t_i l' = t_i l /\ x_i l' = x_i l /\ t_f l' = t_f l /\ x_f l' = x_f l /\
  sc l' = sc l /\ mu l' = mu l.
Proof.
  unfold set_throttle, get_throttles_size, get_throttle. intros H.
  destruct (Z_lt_dec index 0) as [Hn|Hn];
    [rewrite vec_set_Undefined in H by lia; discriminate|].
  destruct (Z_lt_dec index (Z.of_nat (length (throttles l)))) as [Hlt|Hge];
    [|rewrite vec_set_Undefined in H by lia; discriminate].
  rewrite vec_set_Ret in H by lia. inversion H; subst. simpl.
  split; [apply length_insert|].
  split; [|repeat split].
  intros j Hj. apply vec_at_insert_ne; [lia | exact Hj].
Qed.

(** X3: [set_throttles_size] with a size that is not negative leaves a leg
    with exactly that many throttles: the old ones as far as they fit, in
    their places, then default-constructed ones; no other member changes.
    With a negative size it fails with [std::length_error]. *)
Theorem set_throttles_size_resizes (dflt : throttle) (size : Z) (l : leg) :
  ((size < 0)%Z -> set_throttles_size dflt size l = length_error) /\
  ((0 <= size)%Z ->
   exists l',
     set_throttles_size dflt size l = Resized l' /\
     Z.of_nat (get_throttles_size l') = size /\
     (forall i : nat,
        (i < get_throttles_size l)%nat -> (Z.of_nat i < size)%Z ->
        throttles l' !! i = throttles l !! i) /\
     (forall i : nat,
        (get_throttles_size l <= i)%nat -> (Z.of_nat i < size)%Z ->
        throttles l' !! i = Some dflt) /\
     t_i l' = t_i l /\ x_i l' = x_i l /\ t_f l' = t_f l /\ x_f l' = x_f l /\
     sc l' = sc l /\ mu l' = mu l).
Proof.
  unfold set_throttles_size, get_throttles_size. split.
  - intros Hs. destruct size; try lia. reflexivity.
  - intros Hs.
    exists (with_throttles
              (take (Z.to_nat size) (throttles l)
               ++ replicate (Z.to_nat size - length (throttles l)) dflt) l).
    split; [destruct size; try lia; reflexivity|].
    simpl. split.
    { rewrite length_app, length_take, length_replicate. lia. }
    split.
    { intros i Hi Hlt. rewrite lookup_app_l by (rewrite length_take; lia).
      apply lookup_take_lt. lia. }
    split; [|repeat split].
    intros i Hi Hlt.
    rewrite lookup_app_r by (rewrite length_take; lia).
    apply lookup_replicate_2. rewrite length_take. lia.
Qed.

(** ** Further properties of the mismatch *)

Lemma forward_pass_run (l : leg) :
  forward_pass l
  = run_segments (fwd_segment l) (take (n_seg_fwd l) (throttles l))
                 (fwd_init l).
Proof.
  unfold forward_pass.
  rewrite (for_int_segments (fwd_segment l) (fwd_body l) (throttles l)).
  - rewrite drop_0. reflexivity.
  - intros i x a Hx. apply fwd_body_segment, Hx.
  - pose proof (n_seg_sum l). lia.
Qed.

Lemma backward_pass_run (l : leg) :
  backward_pass l
  = run_segments (back_segment l)
                 (reverse (drop (n_seg_fwd l) (throttles l))) (back_init l).
Proof.
  unfold backward_pass.
  rewrite (for_int_segments (back_segment l) (back_body l)
             (reverse (throttles l))).
  - rewrite drop_0, take_reverse.
    replace (length (throttles l) - n_seg_back l)%nat with (n_seg_fwd l)
      by (pose proof (n_seg_sum l); lia).
    reflexivity.
  - intros i x a Hx. apply back_body_segment, Hx.
  - rewrite length_reverse. pose proof (n_seg_sum l). lia.
Qed.

(** A property kept by every segment that returns is kept by a run of
    segments that returns. *)
Lemma run_segments_invariant {A B} (P : A -> Prop)
    (segment : B -> A -> result A) (xs : list B) :
  (forall x a a', P a -> segment x a = Ret a' -> P a') ->
  forall a a', P a -> run_segments segment xs a = Ret a' -> P a'.
Proof.
  intros Hseg. induction xs as [|x xs IH]; intros a a' Ha Hrun; simpl in Hrun.
  - inversion Hrun; subst. exact Ha.
  - destruct (segment x a) as [a1| | |] eqn:E; simpl in Hrun;
      try discriminate.
    apply (IH a1); [apply (Hseg x a); assumption | exact Hrun].
Qed.

(** An outcome no segment has is not the outcome of a run of segments. *)
Lemma run_segments_defined {A B} (segment : B -> A -> result A)
    (xs : list B) :
  (forall x a, segment x a <> Undefined) ->
  forall a, run_segments segment xs a <> Undefined.
Proof.
  intros Hseg. induction xs as [|x xs IH]; intros a; simpl.
  - discriminate.
  - pose proof (Hseg x a) as Hx.
    destruct (segment x a) as [a1| | |]; simpl;
      [apply IH | discriminate | discriminate | contradiction].
Qed.

(** What a segment that returns leaves in the pass state. *)
Lemma fwd_segment_Ret (l : leg) (th : throttle) (st st' : pass) :
  fwd_segment l th st = Ret st' ->
  exists dv,
    p_m st' = p_m st * exp (- norm dv / get_isp (sc l) / ASTRO_G0) /\
    p_time st' = manouver_time th.
Proof.
  unfold fwd_segment. intros H.
  destruct (propagate_lagrangian _ _ _ _) as [[r v]| | |]; simpl in H;
    try discriminate.
  inversion H; subst; simpl. eexists. split; reflexivity.
Qed.

Lemma back_segment_Ret (l : leg) (th : throttle) (st st' : pass) :
  back_segment l th st = Ret st' ->
  exists dv,
    p_m st' = p_m st * exp (norm dv / get_isp (sc l) / ASTRO_G0) /\
    p_time st' = manouver_time th.
Proof.
  unfold back_segment. intros H.
  destruct (propagate_lagrangian _ _ _ _) as [[r v]| | |]; simpl in H;
    try discriminate.
  inversion H; subst; simpl. eexists. split; reflexivity.
Qed.

Lemma norm_nonneg (a : array3D) : 0 <= norm a.
Proof. unfold norm. apply sqrt_pos. Qed.

Lemma exp_nonneg_ge_1 (x : double) : 0 <= x -> 1 <= exp x.
Proof.
  intros [Hx | <-].
  - rewrite <- exp_0. left. apply exp_increasing. exact Hx.
  - rewrite exp_0. lra.
Qed.

Lemma exp_nonpos_le_1 (x : double) : 0 <= x -> exp (- x) <= 1.
Proof.
  intros Hx. rewrite exp_Ropp.
  pose proof (exp_nonneg_ge_1 x Hx) as H1.
  rewrite <- Rinv_1. apply Rinv_le_contravar; lra.
Qed.

Lemma exponent_nonneg (n isp : double) :
  0 <= n -> 0 < isp -> 0 < ASTRO_G0 -> 0 <= n / isp / ASTRO_G0.
Proof.
  intros Hn Hi Hg. unfold Rdiv.
  apply Rmult_le_pos; [apply Rmult_le_pos|]; try exact Hn;
    left; apply Rinv_0_lt_compat; assumption.
Qed.

(** X4: with a positive specific impulse and a positive g0, the mass stays
    positive through both passes, never grows in the forward pass and never
    shrinks in the backward pass. *)
Theorem pass_mass (l : leg) (fwd back : pass) :
  0 < get_isp (sc l) ->
  0 < ASTRO_G0 ->
  forward_pass l = Ret fwd ->
  backward_pass l = Ret back ->
  (0 < get_mass (x_i l) -> 0 < p_m fwd <= get_mass (x_i l)) /\
  (0 < get_mass (x_f l) -> get_mass (x_f l) <= p_m back).
Proof.
  intros Hisp Hg Hf Hb. rewrite forward_pass_run in Hf.
  rewrite backward_pass_run in Hb. split; intros Hm.
  - apply (run_segments_invariant
             (fun st => 0 < p_m st <= get_mass (x_i l)) _ _) with
      (a := fwd_init l) (a' := fwd) in Hf; [exact Hf | | simpl; lra].
    intros th a a' Ha Hseg.
    apply fwd_segment_Ret in Hseg as (dv & Hmass & _). rewrite Hmass.
    pose proof (exponent_nonneg (norm dv) _ (norm_nonneg dv) Hisp Hg) as Hx.
    replace (- norm dv / get_isp (sc l) / ASTRO_G0)
      with (- (norm dv / get_isp (sc l) / ASTRO_G0))
      by (unfold Rdiv; ring).
    pose proof (exp_nonpos_le_1 _ Hx) as Hle.
    pose proof (exp_pos (- (norm dv / get_isp (sc l) / ASTRO_G0))) as Hpos.
    nra.
  - apply (run_segments_invariant
             (fun st => get_mass (x_f l) <= p_m st) _ _) with
      (a := back_init l) (a' := back) in Hb; [exact Hb | | simpl; lra].
    intros th a a' Ha Hseg.
    apply back_segment_Ret in Hseg as (dv & Hmass & _). rewrite Hmass.
    pose proof (exponent_nonneg (norm dv) _ (norm_nonneg dv) Hisp Hg) as Hx.
    pose proof (exp_nonneg_ge_1 _ Hx) as Hge.
    nra.
Qed.

Lemma run_segments_last_time (segment : throttle -> pass -> result pass)
    (xs : list throttle) :
  (forall th a a', segment th a = Ret a' -> p_time a' = manouver_time th) ->
  forall a a',
    run_segments segment xs a = Ret a' ->
    p_time a' = match last xs with
                | Some th => manouver_time th
                | None => p_time a
                end.
Proof.
  intros Hseg. induction xs as [|x xs IH]; intros a a' Hrun; simpl in Hrun.
  - inversion Hrun; subst. reflexivity.
  - destruct (segment x a) as [a1| | |] eqn:E; simpl in Hrun;
      try discriminate.
    specialize (IH a1 a' Hrun). destruct xs as [|y ys].
    + simpl in Hrun. inversion Hrun; subst. simpl. apply (Hseg x a), E.
    + rewrite last_cons. simpl in IH |- *.
      destruct (last (y :: ys)) eqn:El; [exact IH|].
      apply last_None in El. discriminate.
Qed.

(** X5: where the two passes stop.  The forward pass ends at the midpoint
    of the last throttle of the forward group (at the initial epoch when the
    group is empty) and the backward pass at the midpoint of the first
    throttle after it (at the final epoch when there is none); the closing
    propagation of the forward state spans the time between the two. *)
Theorem pass_final_time (l : leg) (fwd back : pass) :
  forward_pass l = Ret fwd ->
  backward_pass l = Ret back ->
  let n := length (throttles l) in
  p_time fwd = match last (take ((n + 1) / 2) (throttles l)) with
               | Some th => manouver_time th
               | None => mjd2000 (t_i l) * ASTRO_DAY2SEC
               end /\
  p_time back = match head (drop ((n + 1) / 2) (throttles l)) with
                | Some th => manouver_time th
                | None => mjd2000 (t_f l) * ASTRO_DAY2SEC
                end /\
  mismatch l
  = (do '(r, v) <- propagate_lagrangian (p_r fwd) (p_v fwd)
                     (p_time back - p_time fwd) (mu l);
     Ret (diff r (p_r back), diff v (p_v back), p_m fwd - p_m back)).
Proof.
  intros Hf Hb n. split; [|split].
  - rewrite forward_pass_run in Hf.
    apply (run_segments_last_time (fwd_segment l)) in Hf; [exact Hf|].
    intros th a a' H. apply fwd_segment_Ret in H as (dv & _ & Ht). exact Ht.
  - rewrite backward_pass_run in Hb.
    apply (run_segments_last_time (back_segment l)) in Hb.
    + rewrite last_reverse in Hb. exact Hb.
    + intros th a a' H. apply back_segment_Ret in H as (dv & _ & Ht).
      exact Ht.
  - unfold mismatch. rewrite Hf, Hb. reflexivity.
Qed.

(** X6: the subscripts of the two loops never leave the vector, whatever
    the number of throttles: when the propagator has defined behaviour, so
    has the whole computation of the mismatch. *)
Theorem mismatch_defined (l : leg) :
  (forall r v t m, propagate_lagrangian r v t m <> Undefined) ->
  mismatch l <> Undefined.
Proof.
  intros Hp. unfold mismatch.
  rewrite forward_pass_run, backward_pass_run.
  assert (Hfs : forall th a, fwd_segment l th a <> Undefined).
  { intros th a. unfold fwd_segment.
    pose proof (Hp (p_r a) (p_v a) (manouver_time th - p_time a) (mu l)) as H.
    destruct (propagate_lagrangian _ _ _ _) as [[r v]| | |]; simpl;
      [discriminate | discriminate | discriminate | contradiction]. }
  assert (Hbs : forall th a, back_segment l th a <> Undefined).
  { intros th a. unfold back_segment.
    pose proof (Hp (p_r a) (p_v a) (manouver_time th - p_time a) (mu l)) as H.
    destruct (propagate_lagrangian _ _ _ _) as [[r v]| | |]; simpl;
      [discriminate | discriminate | discriminate | contradiction]. }
  pose proof (run_segments_defined (fwd_segment l)
                (take (n_seg_fwd l) (throttles l)) Hfs (fwd_init l)) as Hf.
  destruct (run_segments (fwd_segment l) _ _) as [fwd| | |]; simpl;
    [| discriminate | discriminate | contradiction].
  pose proof (run_segments_defined (back_segment l)
                (reverse (drop (n_seg_fwd l) (throttles l))) Hbs
                (back_init l)) as Hb.
  destruct (run_segments (back_segment l) _ _) as [back| | |]; simpl;
    [| discriminate | discriminate | contradiction].
  pose proof (Hp (p_r fwd) (p_v fwd) (p_time back - p_time fwd) (mu l)) as H.
  destruct (propagate_lagrangian _ _ _ _) as [[r v]| | |]; simpl;
    [discriminate | discriminate | discriminate | contradiction].
Qed.

Lemma diff_diag (a : array3D) : diff a a = mk_array3D 0 0 0.
Proof. unfold diff. f_equal; ring. Qed.

(** X7: a leg without throttles is one propagation of the start state over
    the whole leg, compared with the end state; when that propagation gives
    the position and velocity of the end state and the two masses are
    equal, all seven components of the mismatch are zero. *)
Theorem mismatch_no_throttles (l : leg) :
  throttles l = [] ->
  mismatch l
  = (do '(r, v) <- propagate_lagrangian
                     (get_position (x_i l)) (get_velocity (x_i l))
                     (mjd2000 (t_f l) * ASTRO_DAY2SEC
                      - mjd2000 (t_i l) * ASTRO_DAY2SEC) (mu l);
     Ret (diff r (get_position (x_f l)), diff v (get_velocity (x_f l)),
          get_mass (x_i l) - get_mass (x_f l))) /\
  (propagate_lagrangian (get_position (x_i l)) (get_velocity (x_i l))
                        (mjd2000 (t_f l) * ASTRO_DAY2SEC
                         - mjd2000 (t_i l) * ASTRO_DAY2SEC) (mu l)
   = Ret (get_position (x_f l), get_velocity (x_f l)) ->
   get_mass (x_i l) = get_mass (x_f l) ->
   mismatch l = Ret (mk_array3D 0 0 0, mk_array3D 0 0 0, 0)).
Proof.
  intros Hths.
  assert (E : mismatch l
              = (do '(r, v) <- propagate_lagrangian
                                 (get_position (x_i l)) (get_velocity (x_i l))
                                 (mjd2000 (t_f l) * ASTRO_DAY2SEC
                                  - mjd2000 (t_i l) * ASTRO_DAY2SEC) (mu l);
                 Ret (diff r (get_position (x_f l)),
                      diff v (get_velocity (x_f l)),
                      get_mass (x_i l) - get_mass (x_f l)))).
  { unfold mismatch, forward_pass, backward_pass, n_seg_fwd, n_seg_back.
    rewrite Hths. reflexivity. }
  split; [exact E|].
  intros Hp Hm. rewrite E, Hp. simpl. rewrite !diff_diag, Hm.
  repeat f_equal. ring.
Qed.

Lemma sum_zero (v : array3D) (k : double) :
  sum v (mk_array3D (k * 0) (k * 0) (k * 0)) = v.
Proof. destruct v. unfold sum. simpl. f_equal; ring. Qed.

Lemma norm_zero (k : double) : norm (mk_array3D (k * 0) (k * 0) (k * 0)) = 0.
Proof.
  unfold norm. simpl.
  replace (k * 0 * (k * 0) + k * 0 * (k * 0) + k * 0 * (k * 0)) with 0 by ring.
  apply sqrt_0.
Qed.

(** X8: a throttle whose vector is zero contributes no thrust: its segment,
    forward or backward, is the propagation to its midpoint alone, and
    velocity and mass are those the propagation left. *)
Theorem segment_zero_throttle (l : leg) (th : throttle) (st : pass)
    (r' v' : array3D) :
  get_value th = mk_array3D 0 0 0 ->
  propagate_lagrangian (p_r st) (p_v st) (manouver_time th - p_time st)
                       (mu l) = Ret (r', v') ->
  fwd_segment l th st = Ret (mk_pass r' v' (p_m st) (manouver_time th)) /\
  back_segment l th st = Ret (mk_pass r' v' (p_m st) (manouver_time th)).
Proof.
  intros Hv Hp. unfold fwd_segment, back_segment.
  rewrite Hp, Hv. unfold bind. cbv beta iota zeta. simpl at3.
  rewrite !sum_zero, !norm_zero.
  replace (- 0 / get_isp (sc l) / ASTRO_G0) with 0 by (unfold Rdiv; ring).
  replace (0 / get_isp (sc l) / ASTRO_G0) with 0 by (unfold Rdiv; ring).
  rewrite exp_0, Rmult_1_r. split; reflexivity.
Qed.

(** X9: [get_mismatch_con] writes only after the whole mismatch is
    computed: when the computation throws, the storage is what it was in
    every build, and unless the assertion stops the call first the same
    exception leaves the call. *)
Theorem get_mismatch_con_throws (l : leg) (begin end_ : Z)
    (mem : list double) (e : exn) :
  mismatch l = Throw e ->
  snd (get_mismatch_con l begin end_ mem) = mem /\
  (NDEBUG = true \/ (end_ - begin = 7)%Z ->
   get_mismatch_con l begin end_ mem = (Throw e, mem)).
Proof.
  intros Hm. unfold get_mismatch_con. rewrite Hm. split.
  - destruct (negb NDEBUG && negb (end_ - begin =? 7)%Z); reflexivity.
  - intros [-> | ->]; [reflexivity|].
    rewrite Z.eqb_refl, andb_false_r. reflexivity.
Qed.

(** X10: on a range of seven slots inside the storage, once the mismatch
    (r, v, dm) is computed, [get_mismatch_con] returns in every build; the
    range then holds r, v and dm in that order, and the storage has its
    length and, outside the range, its contents. *)
Theorem get_mismatch_con_range (l : leg) (begin end_ : Z)
    (mem : list double) (r v : array3D) (dm : double) :
  mismatch l = Ret (r, v, dm) ->
  (end_ - begin = 7)%Z ->
  (0 <= begin)%Z ->
  (end_ <= Z.of_nat (length mem))%Z ->
  exists mem',
    get_mismatch_con l begin end_ mem = (Ret tt, mem') /\
    length mem' = length mem /\
    (forall k : nat,
       (k < 7)%nat ->
       mem' !! (Z.to_nat begin + k)%nat = seven r v dm !! k) /\
    (forall j : nat,
       (j < Z.to_nat begin)%nat \/ (Z.to_nat end_ <= j)%nat ->
       mem' !! j = mem !! j).
Proof.
  intros Hm Hlen Hb He. eexists. split.
  - apply (get_mismatch_con_writes l begin end_ mem r v dm Hm);
      [right; exact Hlen | exact Hb | lia].
  - assert (Htake : length (take (Z.to_nat begin) mem) = Z.to_nat begin)
      by (rewrite length_take; lia).
    split; [|split].
    + rewrite !length_app, Htake, length_drop. simpl. lia.
    + intros k Hk. rewrite lookup_app_r by lia. rewrite Htake.
      replace (Z.to_nat begin + k - Z.to_nat begin)%nat with k by lia.
      apply lookup_app_l. simpl. exact Hk.
    + intros j [Hj | Hj].
      * rewrite lookup_app_l by lia. apply lookup_take_lt. exact Hj.
      * rewrite lookup_app_r by lia. rewrite Htake.
        rewrite lookup_app_r by (simpl; lia). simpl length.
        rewrite lookup_drop. f_equal. lia.
Qed.

(** X11: for a propagator under which two successive propagations amount
    to one over the sum of the times, a single throttle whose vector is
    zero changes nothing: once the propagation to its midpoint succeeds,
    the mismatch is that of the same leg without throttles. *)
Theorem mismatch_idle_throttle (l : leg) (th : throttle) (r1 v1 : array3D) :
  (forall r v t1 t2 m r' v',
     propagate_lagrangian r v t1 m = Ret (r', v') ->
     propagate_lagrangian r' v' t2 m = propagate_lagrangian r v (t1 + t2) m) ->
  throttles l = [th] ->
  get_value th = mk_array3D 0 0 0 ->
  propagate_lagrangian (get_position (x_i l)) (get_velocity (x_i l))
                       (manouver_time th - mjd2000 (t_i l) * ASTRO_DAY2SEC)
                       (mu l) = Ret (r1, v1) ->
  mismatch l = mismatch (with_throttles [] l).
Proof.
  intros Hflow Hths Hv Hp.
  assert (Hseg : fwd_segment l th (fwd_init l)
                 = Ret (mk_pass r1 v1 (get_mass (x_i l)) (manouver_time th))).
  { unfold fwd_segment. simpl p_r. simpl p_v. simpl p_time. simpl p_m.
    rewrite Hp, Hv. unfold bind. cbv beta iota zeta. simpl at3.
    rewrite sum_zero, norm_zero.
    replace (- 0 / get_isp (sc l) / ASTRO_G0) with 0 by (unfold Rdiv; ring).
    rewrite exp_0, Rmult_1_r. reflexivity. }
  unfold mismatch at 1. rewrite forward_pass_run, backward_pass_run.
  unfold n_seg_fwd. rewrite Hths. simpl length. simpl take. simpl drop.
  simpl reverse. simpl run_segments. rewrite Hseg. simpl.
  rewrite (Hflow _ _ _ _ _ _ _ Hp).
  replace (manouver_time th - mjd2000 (t_i l) * ASTRO_DAY2SEC
           + (mjd2000 (t_f l) * ASTRO_DAY2SEC - manouver_time th))
    with (mjd2000 (t_f l) * ASTRO_DAY2SEC - mjd2000 (t_i l) * ASTRO_DAY2SEC)
    by ring.
  reflexivity.
Qed.

(** ** Further properties of the delta-v estimate *)

Lemma evaluate_dv_terms (l : leg) :
  evaluate_dv l
  = Ret (sum_list
           (map (fun th =>
                   (mjd2000 (get_end th) - mjd2000 (get_start th))
                   * ASTRO_DAY2SEC * get_norm th
                   * get_thrust (sc l) / sc_get_mass (sc l))
                (throttles l))).
Proof.
  unfold evaluate_dv.
  rewrite (for_int_segments
             (fun th acc =>
                Ret (acc + (mjd2000 (get_end th) - mjd2000 (get_start th))
                           * ASTRO_DAY2SEC * get_norm th
                           * get_thrust (sc l) / sc_get_mass (sc l)))
             _ (throttles l)).
  - rewrite drop_0, firstn_all, run_segments_sum. f_equal. ring.
  - intros i x a Hx. rewrite (vec_at_of_nat _ _ _ Hx). reflexivity.
  - lia.
Qed.

Lemma sum_list_app (xs ys : list double) :
  sum_list (xs ++ ys) = sum_list xs + sum_list ys.
Proof.
  induction xs as [|x xs IH]; simpl.
  - ring.
  - rewrite IH. ring.
Qed.

(** X12: [evaluate_dv] always returns, and it is additive: the estimate for
    two sequences of throttles put end to end is the sum of the estimates
    for each, so that of a leg without throttles is 0. *)
Theorem evaluate_dv_additive (l : leg) (ths1 ths2 : list throttle) :
  exists dv1 dv2,
    evaluate_dv (with_throttles ths1 l) = Ret dv1 /\
    evaluate_dv (with_throttles ths2 l) = Ret dv2 /\
    evaluate_dv (with_throttles (ths1 ++ ths2) l) = Ret (dv1 + dv2) /\
    evaluate_dv (with_throttles [] l) = Ret 0.
Proof.
  eexists _, _. split; [apply evaluate_dv_terms|].
  split; [apply evaluate_dv_terms|]. split.
  - rewrite evaluate_dv_terms. simpl. rewrite map_app, sum_list_app.
    reflexivity.
  - rewrite evaluate_dv_terms. reflexivity.
Qed.

(** X13: the estimate is not negative when the day-to-second factor and
    the thrust are not negative, the spacecraft mass is positive and no
    throttle ends before it starts. *)
Theorem evaluate_dv_nonneg (l : leg) :
  0 <= ASTRO_DAY2SEC ->
  0 <= get_thrust (sc l) ->
  0 < sc_get_mass (sc l) ->
  Forall (fun th => mjd2000 (get_start th) <= mjd2000 (get_end th))
         (throttles l) ->
  exists dv, evaluate_dv l = Ret dv /\ 0 <= dv.
Proof.
  intros Hd Ht Hm Hall. eexists. split; [apply evaluate_dv_terms|].
  induction Hall as [|th ths Hth Hall IH]; simpl.
  - lra.
  - apply Rplus_le_le_0_compat; [|exact IH].
    unfold Rdiv. apply Rmult_le_pos;
      [|left; apply Rinv_0_lt_compat; exact Hm].
    apply Rmult_le_pos; [|exact Ht].
    apply Rmult_le_pos; [|apply norm_nonneg].
    apply Rmult_le_pos; [lra | exact Hd].
Qed.

(** ** Further properties of the throttle constraints *)

(** X14: replacing one throttle changes one constraint.  After a
    [set_throttle] that returns, [get_throttles_con] on the same range
    gives the storage it gave before except for the slot of that throttle,
    which holds the value of the new one. *)
Theorem get_throttles_con_set_throttle (l l' : leg) (index : Z)
    (t : throttle) (start end_ : Z) (mem : list double) :
  set_throttle index t l = (Ret tt, l') ->
  (end_ - start = Z.of_nat (length (throttles l)))%Z ->
  (0 <= start)%Z ->
  (end_ <= Z.of_nat (length mem))%Z ->
  exists mem1,
    get_throttles_con l start end_ mem = (Ret tt, mem1) /\
    get_throttles_con l' start end_ mem
    = (Ret tt, <[Z.to_nat (start + index) := throttle_con t]> mem1).
Proof.
  intros Hset Hlen Hs He. unfold set_throttle in Hset.
  destruct (Z_lt_dec index 0) as [Hn|Hn];
    [rewrite vec_set_Undefined in Hset by lia; discriminate|].
  destruct (Z_lt_dec index (Z.of_nat (length (throttles l)))) as [Hlt|Hge];
    [|rewrite vec_set_Undefined in Hset by lia; discriminate].
  rewrite vec_set_Ret in Hset by lia. inversion Hset; subst. clear Hset.
  eexists. split; [apply get_throttles_con_ok; assumption|].
  rewrite get_throttles_con_ok;
    [| simpl; rewrite length_insert; exact Hlen | exact Hs | exact He].
  simpl throttles. f_equal.
  assert (Htake : length (take (Z.to_nat start) mem) = Z.to_nat start)
    by (rewrite length_take; lia).
  rewrite insert_app_r_alt by lia. rewrite Htake.
  replace (Z.to_nat (start + index) - Z.to_nat start)%nat
    with (Z.to_nat index) by lia.
  rewrite insert_app_l by (rewrite length_map; lia).
  change (map throttle_con (<[Z.to_nat index := t]> (throttles l)))
    with (throttle_con <$> <[Z.to_nat index := t]> (throttles l)).
  rewrite list_fmap_insert. reflexivity.
Qed.

End Evaluation.

(** ** The statements on concrete data *)

Lemma set_leg_time_order_witness :
  mjd2000 (mk_epoch 2) <= mjd2000 (mk_epoch 5) /\
  set_leg (mk_epoch 5) sample_state_i [] (mk_epoch 2) sample_state_f 1
          sample_leg
  = (Throw InvalidTimeOrder, sample_leg).
Proof.
  assert (H : mjd2000 (mk_epoch 2) <= mjd2000 (mk_epoch 5)) by (simpl; lra).
  split; [exact H|].
  exact (set_leg_time_order (mk_epoch 5) sample_state_i [] (mk_epoch 2)
           sample_state_f 1 sample_leg H).
Defined.

Lemma set_leg_nonpositive_mu_witness :
  0 <= 0 /\
  let r := set_leg (mk_epoch 0) sample_state_i [] (mk_epoch 3)
                   sample_state_f 0 sample_leg in
  (mjd2000 (mk_epoch 3) <= mjd2000 (mk_epoch 0) ->
     r = (Throw InvalidTimeOrder, sample_leg)) /\
  (mjd2000 (mk_epoch 0) < mjd2000 (mk_epoch 3) ->
     fst r = Throw InvalidPhysicalParameter) /\
  mu (snd r) = mu sample_leg /\ sc (snd r) = sc sample_leg.
Proof.
  assert (H : 0 <= 0) by lra.
  split; [exact H|].
  exact (set_leg_nonpositive_mu (mk_epoch 0) sample_state_i [] (mk_epoch 3)
           sample_state_f 0 sample_leg H).
Defined.

(** [set_leg] with epochs in order and mu = 0 on the sample leg: the call
    throws the gravitational-parameter error after it has emptied the
    throttles; with the epochs out of order as well, it throws the
    time-order error instead. *)
Lemma set_leg_nonpositive_mu_counterexample :
  0 <= 0 /\
  set_leg (mk_epoch 0) sample_state_i [] (mk_epoch 3) sample_state_f 0
          sample_leg
  <> (Throw InvalidPhysicalParameter, sample_leg) /\
  set_leg (mk_epoch 0) sample_state_i [] (mk_epoch 3) sample_state_f 0
          sample_leg
  = (Throw InvalidPhysicalParameter, coast_leg) /\
  set_leg (mk_epoch 3) sample_state_i [] (mk_epoch 0) sample_state_f 0
          sample_leg
  = (Throw InvalidTimeOrder, sample_leg).
Proof.
  assert (E : set_leg (mk_epoch 0) sample_state_i [] (mk_epoch 3)
                      sample_state_f 0 sample_leg
              = (Throw InvalidPhysicalParameter, coast_leg)).
  { unfold set_leg. simpl mjd2000.
    destruct (Rle_dec 3 0) as [H|_]; [lra|].
    destruct (Rle_dec 0 0) as [_|H]; [reflexivity | lra]. }
  split; [lra|]. split; [|split; [exact E|]].
  - rewrite E. intros H. inversion H.
  - unfold set_leg. simpl mjd2000.
    destruct (Rle_dec 0 3) as [_|H]; [reflexivity | lra].
Qed.

Lemma get_mismatch_con_wrong_length_witness :
  (3 - 0 <> 7)%Z /\
  get_mismatch_con sample_DAY2SEC sample_G0 drift false sample_leg 0 3
                   [0; 0; 0]
  = (Abort, [0; 0; 0]).
Proof.
  assert (H : (3 - 0 <> 7)%Z) by lia.
  split; [exact H|].
  exact (proj1 (get_mismatch_con_wrong_length sample_DAY2SEC sample_G0 drift
                  false sample_leg 0 3 [0; 0; 0] H) eq_refl).
Defined.

Lemma mismatch_coast_leg :
  mismatch sample_DAY2SEC sample_G0 drift coast_leg
  = Ret (diff (sum (mk_array3D 1 0 0)
                   (scale3 (3 * sample_DAY2SEC - 0 * sample_DAY2SEC)
                           (mk_array3D 0 1 0)))
              (mk_array3D 0 1 0),
         diff (mk_array3D 0 1 0) (mk_array3D (-1) 0 0),
         1000 - 900).
Proof. reflexivity. Qed.

(** [get_mismatch_con] on ranges of length 3 and 8: with assertions the call
    aborts, which is not an exception the caller can catch; with NDEBUG the
    call returns and the storage has changed. *)
Lemma get_mismatch_con_wrong_length_counterexample :
  (3 - 0 <> 7)%Z /\
  get_mismatch_con sample_DAY2SEC sample_G0 drift false coast_leg 0 3
                   [0; 0; 0]
  = (Abort, [0; 0; 0]) /\
  get_mismatch_con sample_DAY2SEC sample_G0 drift false coast_leg 0 3
                   [0; 0; 0]
  <> (Throw BufferSizeMismatch, [0; 0; 0]) /\
  (8 - 0 <> 7)%Z /\
  fst (get_mismatch_con sample_DAY2SEC sample_G0 drift true coast_leg 0 8
                        zeros8) = Ret tt /\
  snd (get_mismatch_con sample_DAY2SEC sample_G0 drift true coast_leg 0 8
                        zeros8) !! 6%nat = Some (1000 - 900) /\
  get_mismatch_con sample_DAY2SEC sample_G0 drift true coast_leg 0 8 zeros8
  <> (Throw BufferSizeMismatch, zeros8).
Proof.
  split; [lia|]. split; [reflexivity|]. split; [discriminate|].
  split; [lia|].
  rewrite (get_mismatch_con_writes sample_DAY2SEC sample_G0 drift true
             coast_leg 0 8 zeros8 _ _ _ mismatch_coast_leg);
    [| left; reflexivity | lia | simpl; lia].
  split; [reflexivity|]. split; [reflexivity | discriminate].
Qed.

Lemma get_mismatch_con_by_value_witness :
  exists r v dm,
    mismatch sample_DAY2SEC sample_G0 drift coast_leg = Ret (r, v, dm) /\
    get_mismatch_con_sc sample_DAY2SEC sample_G0 drift true 0 coast_leg
                        sample_state_i
    = (Ret tt, (coast_leg, sample_state_i),
       mk_frame (mk_sc_state r v dm) (seven r v dm)) /\
    mk_sc_state r v dm <> sample_state_i.
Proof.
  eexists _, _, _. split; [exact mismatch_coast_leg|]. split.
  - exact (proj2 (get_mismatch_con_by_value sample_DAY2SEC sample_G0 drift
                    true 0 coast_leg sample_state_i) _ _ _ mismatch_coast_leg).
  - intros H. inversion H. lra.
Defined.

Lemma segment_impulse_witness :
  let l := sample_leg in
  let th := sample_throttle 0 1 0 0 in
  let st := fwd_init sample_DAY2SEC l in
  let r' := sum (p_r st)
                (scale3 (manouver_time sample_DAY2SEC th - p_time st)
                        (p_v st)) in
  let v' := p_v st in
  let k := get_thrust (sc l) / p_m st * thrust_duration sample_DAY2SEC th in
  let dv := scale3 k (get_value th) in
  drift (p_r st) (p_v st) (manouver_time sample_DAY2SEC th - p_time st)
        (mu l) = Ret (r', v') /\
  0 <= k /\
  fwd_segment sample_DAY2SEC sample_G0 drift l th st
  = Ret (mk_pass r' (sum v' dv)
                 (p_m st * exp (- norm dv / (get_isp (sc l) * sample_G0)))
                 (manouver_time sample_DAY2SEC th)) /\
  back_segment sample_DAY2SEC sample_G0 drift l th st
  = Ret (mk_pass r' (sum v' (scale3 (-1) dv))
                 (p_m st * exp (norm dv / (get_isp (sc l) * sample_G0)))
                 (manouver_time sample_DAY2SEC th)) /\
  norm dv = k * norm (get_value th).
Proof.
  intros l th st r' v' k dv.
  assert (H : drift (p_r st) (p_v st)
                    (manouver_time sample_DAY2SEC th - p_time st) (mu l)
              = Ret (r', v')) by reflexivity.
  assert (Hk : 0 <= k).
  { unfold k, thrust_duration, sample_DAY2SEC. simpl. lra. }
  destruct (segment_impulse sample_DAY2SEC sample_G0 drift l th st r' v' H)
    as (Hf & Hb & _ & _ & Hn).
  split; [exact H|]. split; [exact Hk|].
  split; [exact Hf|]. split; [exact Hb|]. exact (Hn Hk).
Defined.

Lemma get_throttles_con_values_witness :
  (4 - 1 = Z.of_nat (length (throttles sample_leg)))%Z /\
  (0 <= 1)%Z /\
  (4 <= Z.of_nat (length [0; 0; 0; 0; 0]))%Z /\
  exists mem',
    get_throttles_con sample_leg 1 4 [0; 0; 0; 0; 0] = (Ret tt, mem') /\
    forall (i : nat) (th : throttle),
      throttles sample_leg !! i = Some th ->
      let c := a0 (get_value th) * a0 (get_value th)
               + a1 (get_value th) * a1 (get_value th)
               + a2 (get_value th) * a2 (get_value th) - 1 in
      mem' !! (Z.to_nat 1 + i)%nat = Some c /\
      (get_norm th = 1 -> c = 0) /\
      (1 < get_norm th -> 0 < c) /\
      (get_norm th < 1 -> c < 0).
Proof.
  assert (H1 : (4 - 1 = Z.of_nat (length (throttles sample_leg)))%Z)
    by reflexivity.
  assert (H2 : (0 <= 1)%Z) by lia.
  assert (H3 : (4 <= Z.of_nat (length [0; 0; 0; 0; 0]))%Z) by (simpl; lia).
  split; [exact H1|]. split; [exact H2|]. split; [exact H3|].
  exact (get_throttles_con_values sample_leg 1 4 [0; 0; 0; 0; 0] H1 H2 H3).
Defined.

Lemma get_throttles_con_length_witness :
  (2 - 0 <> Z.of_nat (length (throttles sample_leg)))%Z /\
  get_throttles_con sample_leg 0 2 [0; 0]
  = (Throw BufferSizeMismatch, [0; 0]) /\
  (4 - 1 = Z.of_nat (length (throttles sample_leg)))%Z /\
  (0 <= 1)%Z /\
  (4 <= Z.of_nat (length [0; 0; 0; 0; 0]))%Z /\
  get_throttles_con sample_leg 1 4 [0; 0; 0; 0; 0]
  = (Ret tt,
     [0; 1 * 1 + 0 * 0 + 0 * 0 - 1; 0 * 0 + 2 * 2 + 0 * 0 - 1;
      0 * 0 + 0 * 0 + 0 * 0 - 1; 0]).
Proof.
  assert (H0 : (2 - 0 <> Z.of_nat (length (throttles sample_leg)))%Z)
    by (simpl; lia).
  assert (H1 : (4 - 1 = Z.of_nat (length (throttles sample_leg)))%Z)
    by reflexivity.
  assert (H2 : (0 <= 1)%Z) by lia.
  assert (H3 : (4 <= Z.of_nat (length [0; 0; 0; 0; 0]))%Z) by (simpl; lia).
  split; [exact H0|].
  split; [exact (proj1 (get_throttles_con_length sample_leg 0 2 [0; 0]) H0)|].
  split; [exact H1|]. split; [exact H2|]. split; [exact H3|].
  exact (proj2 (proj2 (get_throttles_con_length sample_leg 1 4
                         [0; 0; 0; 0; 0]) H1 H2 H3)).
Defined.

(** The sample leg, three throttles of norm 1, 2 and 0: the constraint
    values are 0, 3 and -1, stored in slots 1 to 3 of five. *)
Example get_throttles_con_sample :
  exists c1 c2 c3,
    get_throttles_con sample_leg 1 4 [0; 0; 0; 0; 0]
    = (Ret tt, [0; c1; c2; c3; 0]) /\ c1 = 0 /\ c2 = 3 /\ c3 = -1.
Proof.
  eexists _, _, _. split; [reflexivity|].
  unfold inner_product; simpl. repeat split; lra.
Qed.

(** The delta-v estimate of the sample leg: three one-day arcs of norm 1, 2
    and 0 at 1 N on 1000 kg. *)
Example evaluate_dv_sample :
  exists dv,
    evaluate_dv sample_DAY2SEC sample_leg = Ret dv /\
    dv = 86400 * 3 / 1000.
Proof.
  eexists. split; [reflexivity|].
  unfold get_norm, norm, sample_DAY2SEC. simpl.
  replace (1 * 1 + 0 * 0 + 0 * 0) with 1 by lra.
  replace (0 * 0 + 2 * 2 + 0 * 0) with (Rsqr 2) by (unfold Rsqr; lra).
  replace (0 * 0 + 0 * 0 + 0 * 0) with 0 by lra.
  rewrite sqrt_1, sqrt_0, sqrt_Rsqr by lra. lra.
Qed.

(** [evaluate_dv] on a leg whose spacecraft object has mass 250 and whose
    start state has mass 1000, with one throttle of norm 1 over one day at
    1 N: the result is 86400 / 250, the sum taken with the mass of the
    spacecraft object, and not 86400 / 1000, the sum taken with the initial
    mass of the start state. *)
Lemma evaluate_dv_sum_counterexample :
  exists dv,
    evaluate_dv sample_DAY2SEC light_sc_leg = Ret dv /\
    dv = 86400 / 250 /\
    sum_list
      (map (fun th =>
              thrust_duration sample_DAY2SEC th * get_norm th
              * (get_thrust (sc light_sc_leg)
                 / get_mass (x_i light_sc_leg)))
           (throttles light_sc_leg)) = 86400 / 1000 /\
    dv <> sum_list
            (map (fun th =>
                    thrust_duration sample_DAY2SEC th * get_norm th
                    * (get_thrust (sc light_sc_leg)
                       / get_mass (x_i light_sc_leg)))
                 (throttles light_sc_leg)).
Proof.
  assert (Hn : sqrt (1 * 1 + 0 * 0 + 0 * 0) = 1).
  { replace (1 * 1 + 0 * 0 + 0 * 0) with 1 by lra. apply sqrt_1. }
  eexists. split; [reflexivity|].
  unfold thrust_duration, get_norm, norm, sample_DAY2SEC. simpl.
  rewrite Hn. repeat split; lra.
Qed.

(** ** The further properties on concrete data *)

Lemma set_leg_returns_witness :
  mjd2000 (mk_epoch 0) < mjd2000 (mk_epoch 3) /\ 0 < 1 /\
  set_leg (mk_epoch 0) sample_state_i [] (mk_epoch 3) sample_state_f 1
          sample_leg
  = (Ret tt,
     mk_leg (mk_epoch 0) sample_state_i [] (mk_epoch 3) sample_state_f
            (sc sample_leg) 1).
Proof.
  assert (H1 : mjd2000 (mk_epoch 0) < mjd2000 (mk_epoch 3)) by (simpl; lra).
  assert (H2 : 0 < 1) by lra.
  split; [exact H1|]. split; [exact H2|].
  exact (proj2 (set_leg_returns (mk_epoch 0) sample_state_i [] (mk_epoch 3)
                  sample_state_f 1 sample_leg) H1 H2).
Defined.

Lemma set_throttle_frame_witness :
  let t := sample_throttle 1 0 1 0 in
  let l' := with_throttles (<[1%nat := t]> (throttles sample_leg))
                           sample_leg in
  set_throttle 1 t sample_leg = (Ret tt, l') /\
  get_throttles_size l' = get_throttles_size sample_leg /\
  (forall j, j <> 1%Z -> get_throttle j l' = get_throttle j sample_leg) /\
  t_i l' = t_i sample_leg /\ x_i l' = x_i sample_leg /\
  t_f l' = t_f sample_leg /\ x_f l' = x_f sample_leg /\
  sc l' = sc sample_leg /\ mu l' = mu sample_leg.
Proof.
  intros t l'.
  assert (H : set_throttle 1 t sample_leg = (Ret tt, l')) by reflexivity.
  split; [exact H|].
  exact (set_throttle_frame sample_leg l' 1 t H).
Defined.

Lemma set_throttles_size_resizes_witness :
  (0 <= 5)%Z /\
  exists l',
    set_throttles_size (sample_throttle 0 0 0 0) 5 sample_leg = Resized l' /\
    Z.of_nat (get_throttles_size l') = 5%Z /\
    (forall i : nat,
       (i < get_throttles_size sample_leg)%nat -> (Z.of_nat i < 5)%Z ->
       throttles l' !! i = throttles sample_leg !! i) /\
    (forall i : nat,
       (get_throttles_size sample_leg <= i)%nat -> (Z.of_nat i < 5)%Z ->
       throttles l' !! i = Some (sample_throttle 0 0 0 0)) /\
    t_i l' = t_i sample_leg /\ x_i l' = x_i sample_leg /\
    t_f l' = t_f sample_leg /\ x_f l' = x_f sample_leg /\
    sc l' = sc sample_leg /\ mu l' = mu sample_leg.
Proof.
  assert (H : (0 <= 5)%Z) by lia.
  split; [exact H|].
  exact (proj2 (set_throttles_size_resizes (sample_throttle 0 0 0 0) 5
                  sample_leg) H).
Defined.

Lemma sample_G0_pos : 0 < sample_G0.
Proof. unfold sample_G0. lra. Qed.

Lemma pass_mass_witness :
  exists fwd back,
    0 < get_isp (sc sample_leg) /\
    0 < sample_G0 /\
    forward_pass sample_DAY2SEC sample_G0 drift sample_leg = Ret fwd /\
    backward_pass sample_DAY2SEC sample_G0 drift sample_leg = Ret back /\
    (0 < get_mass (x_i sample_leg) ->
     0 < p_m fwd <= get_mass (x_i sample_leg)) /\
    (0 < get_mass (x_f sample_leg) -> get_mass (x_f sample_leg) <= p_m back).
Proof.
  eexists _, _.
  assert (H1 : 0 < get_isp (sc sample_leg)) by (simpl; lra).
  split; [exact H1|]. split; [exact sample_G0_pos|].
  split; [reflexivity|]. split; [reflexivity|].
  exact (pass_mass sample_DAY2SEC sample_G0 drift sample_leg _ _
           H1 sample_G0_pos eq_refl eq_refl).
Defined.

Lemma pass_final_time_witness :
  exists fwd back,
    forward_pass sample_DAY2SEC sample_G0 drift sample_leg = Ret fwd /\
    backward_pass sample_DAY2SEC sample_G0 drift sample_leg = Ret back /\
    p_time fwd = manouver_time sample_DAY2SEC (sample_throttle 1 0 2 0) /\
    p_time back = manouver_time sample_DAY2SEC (sample_throttle 2 0 0 0).
Proof.
  eexists _, _. split; [reflexivity|]. split; [reflexivity|].
  destruct (pass_final_time sample_DAY2SEC sample_G0 drift sample_leg _ _
              eq_refl eq_refl) as (Hf & Hb & _).
  split; [exact Hf | exact Hb].
Defined.

Lemma mismatch_defined_witness :
  (forall r v t m, drift r v t m <> Undefined) /\
  mismatch sample_DAY2SEC sample_G0 drift sample_leg <> Undefined.
Proof.
  assert (H : forall r v t m, drift r v t m <> Undefined)
    by (intros; discriminate).
  split; [exact H|].
  exact (mismatch_defined sample_DAY2SEC sample_G0 drift sample_leg H).
Defined.

Lemma mismatch_no_throttles_witness :
  throttles ballistic_leg = [] /\
  mismatch sample_DAY2SEC sample_G0 drift ballistic_leg
  = Ret (mk_array3D 0 0 0, mk_array3D 0 0 0, 0).
Proof.
  assert (H : throttles ballistic_leg = []) by reflexivity.
  split; [exact H|].
  exact (proj2 (mismatch_no_throttles sample_DAY2SEC sample_G0 drift
                  ballistic_leg H) eq_refl eq_refl).
Defined.

Lemma segment_zero_throttle_witness :
  let th := sample_throttle 1 0 0 0 in
  let st := fwd_init sample_DAY2SEC idle_leg in
  let r' := sum (p_r st)
                (scale3 (manouver_time sample_DAY2SEC th - p_time st)
                        (p_v st)) in
  get_value th = mk_array3D 0 0 0 /\
  drift (p_r st) (p_v st) (manouver_time sample_DAY2SEC th - p_time st)
        (mu idle_leg) = Ret (r', p_v st) /\
  fwd_segment sample_DAY2SEC sample_G0 drift idle_leg th st
  = Ret (mk_pass r' (p_v st) (p_m st) (manouver_time sample_DAY2SEC th)) /\
  back_segment sample_DAY2SEC sample_G0 drift idle_leg th st
  = Ret (mk_pass r' (p_v st) (p_m st) (manouver_time sample_DAY2SEC th)).
Proof.
  intros th st r'.
  assert (H1 : get_value th = mk_array3D 0 0 0) by reflexivity.
  assert (H2 : drift (p_r st) (p_v st)
                     (manouver_time sample_DAY2SEC th - p_time st)
                     (mu idle_leg) = Ret (r', p_v st)) by reflexivity.
  split; [exact H1|]. split; [exact H2|].
  exact (segment_zero_throttle sample_DAY2SEC sample_G0 drift idle_leg th st
           r' (p_v st) H1 H2).
Defined.

Lemma get_mismatch_con_throws_witness :
  mismatch sample_DAY2SEC sample_G0 no_solution coast_leg
  = Throw (value_error "no solution") /\
  snd (get_mismatch_con sample_DAY2SEC sample_G0 no_solution false coast_leg
                        0 7 zeros8) = zeros8 /\
  get_mismatch_con sample_DAY2SEC sample_G0 no_solution false coast_leg
                   0 7 zeros8
  = (Throw (value_error "no solution"), zeros8).
Proof.
  assert (H : mismatch sample_DAY2SEC sample_G0 no_solution coast_leg
              = Throw (value_error "no solution")) by reflexivity.
  split; [exact H|].
  destruct (get_mismatch_con_throws sample_DAY2SEC sample_G0 no_solution
              false coast_leg 0 7 zeros8 _ H) as [H1 H2].
  split; [exact H1 | apply H2; right; reflexivity].
Defined.

Lemma get_mismatch_con_range_witness :
  exists r v dm mem',
    mismatch sample_DAY2SEC sample_G0 drift coast_leg = Ret (r, v, dm) /\
    (8 - 1 = 7)%Z /\ (0 <= 1)%Z /\ (8 <= Z.of_nat (length zeros8))%Z /\
    get_mismatch_con sample_DAY2SEC sample_G0 drift false coast_leg 1 8
                     zeros8 = (Ret tt, mem') /\
    length mem' = length zeros8 /\
    (forall k : nat,
       (k < 7)%nat -> mem' !! (Z.to_nat 1 + k)%nat = seven r v dm !! k) /\
    (forall j : nat,
       (j < Z.to_nat 1)%nat \/ (Z.to_nat 8 <= j)%nat ->
       mem' !! j = zeros8 !! j).
Proof.
  assert (H1 : (8 - 1 = 7)%Z) by reflexivity.
  assert (H2 : (0 <= 1)%Z) by lia.
  assert (H3 : (8 <= Z.of_nat (length zeros8))%Z) by (simpl; lia).
  destruct (get_mismatch_con_range sample_DAY2SEC sample_G0 drift false
              coast_leg 1 8 zeros8 _ _ _ mismatch_coast_leg H1 H2 H3)
    as (mem' & Hm).
  eexists _, _, _, mem'. split; [exact mismatch_coast_leg|].
  split; [exact H1|]. split; [exact H2|]. split; [exact H3|]. exact Hm.
Defined.

Lemma drift_flow (r v : array3D) (t1 t2 m : double) (r' v' : array3D) :
  drift r v t1 m = Ret (r', v') ->
  drift r' v' t2 m = drift r v (t1 + t2) m.
Proof.
  unfold drift. intros H. inversion H; subst. do 2 f_equal.
  unfold sum, scale3. simpl. f_equal; ring.
Qed.

Lemma mismatch_idle_throttle_witness :
  let th := sample_throttle 1 0 0 0 in
  throttles idle_leg = [th] /\
  get_value th = mk_array3D 0 0 0 /\
  mismatch sample_DAY2SEC sample_G0 drift idle_leg
  = mismatch sample_DAY2SEC sample_G0 drift (with_throttles [] idle_leg).
Proof.
  intros th.
  assert (H1 : throttles idle_leg = [th]) by reflexivity.
  assert (H2 : get_value th = mk_array3D 0 0 0) by reflexivity.
  split; [exact H1|]. split; [exact H2|].
  exact (mismatch_idle_throttle sample_DAY2SEC sample_G0 drift idle_leg th
           _ _ drift_flow H1 H2 eq_refl).
Defined.

Lemma evaluate_dv_nonneg_witness :
  exists dv, evaluate_dv sample_DAY2SEC sample_leg = Ret dv /\ 0 <= dv.
Proof.
  apply (evaluate_dv_nonneg sample_DAY2SEC sample_leg).
  - unfold sample_DAY2SEC. lra.
  - simpl. lra.
  - simpl. lra.
  - repeat constructor; simpl; lra.
Defined.

Lemma get_throttles_con_set_throttle_witness :
  let t := sample_throttle 1 0 1 0 in
  let l' := with_throttles (<[1%nat := t]> (throttles sample_leg))
                           sample_leg in
  set_throttle 1 t sample_leg = (Ret tt, l') /\
  (4 - 1 = Z.of_nat (length (throttles sample_leg)))%Z /\
  (0 <= 1)%Z /\
  (4 <= Z.of_nat (length [0; 0; 0; 0; 0]))%Z /\
  exists mem1,
    get_throttles_con sample_leg 1 4 [0; 0; 0; 0; 0] = (Ret tt, mem1) /\
    get_throttles_con l' 1 4 [0; 0; 0; 0; 0]
    = (Ret tt, <[Z.to_nat (1 + 1) := throttle_con t]> mem1).
Proof.
  intros t l'.
  assert (H0 : set_throttle 1 t sample_leg = (Ret tt, l')) by reflexivity.
  assert (H1 : (4 - 1 = Z.of_nat (length (throttles sample_leg)))%Z)
    by reflexivity.
  assert (H2 : (0 <= 1)%Z) by lia.
  assert (H3 : (4 <= Z.of_nat (length [0; 0; 0; 0; 0]))%Z) by (simpl; lia).
  split; [exact H0|]. split; [exact H1|]. split; [exact H2|].
  split; [exact H3|].
  exact (get_throttles_con_set_throttle sample_leg l' 1 t 1 4
           [0; 0; 0; 0; 0] H0 H1 H2 H3).
Defined.
